(** * Conveyance routing scheduler of EPA-SWMM (routing.js)

    A shallow embedding of [src/routing.js]: the routing scheduler, the
    lateral inflow aggregation, the steady state detector, the routing
    event list and the loss/outflow reconciliation, followed by theorems
    about them.

    JavaScript numbers are IEEE 754 binary64 values; they are modelled by
    Rocq's primitive [float], whose operations are the same binary64
    operations.  Counts and array indices are [nat], node indices that the
    source compares with zero are [Z].

    Functions of other modules (the solvers, the ledger [massbal_*], the
    forcing data lookups ...) are not part of routing.js.  They are
    gathered in the record [Collab]: read-only lookups are functions,
    procedures with an effect are logged in the [trace] and may change the
    shared project data in an arbitrary way ([effect]). *)

From Stdlib Require Import Floats ZArith Lia String List Bool.
From stdpp Require Import base list.

Set Warnings "-inexact-float".

(* ================================================================== *)
(** ** Enumerations of the project (enums of the original headers)     *)
(* ================================================================== *)

Inductive NodeType := JUNCTION | OUTFALL | STORAGE | DIVIDER.
Inductive LinkType := CONDUIT | PUMP | ORIFICE | WEIR | OUTLET.
Inductive ExtInflowType := CONCEN_INFLOW | MASS_INFLOW | FLOW_INFLOW.
Inductive FileMode := NO_FILE | SCRATCH_FILE | USE_FILE | SAVE_FILE.
Inductive InflowCategory :=
  | DRY_WEATHER_INFLOW | WET_WEATHER_INFLOW | GROUNDWATER_INFLOW
  | RDII_INFLOW | EXTERNAL_INFLOW.

#[global] Instance NodeType_eq_dec : EqDecision NodeType.
Proof. solve_decision. Defined.
#[global] Instance LinkType_eq_dec : EqDecision LinkType.
Proof. solve_decision. Defined.
#[global] Instance ExtInflowType_eq_dec : EqDecision ExtInflowType.
Proof. solve_decision. Defined.
#[global] Instance FileMode_eq_dec : EqDecision FileMode.
Proof. solve_decision. Defined.
#[global] Instance InflowCategory_eq_dec : EqDecision InflowCategory.
Proof. solve_decision. Defined.

(* ================================================================== *)
(** ** JavaScript numbers                                              *)
(* ================================================================== *)

Module Num.
#[local] Open Scope float_scope.

Definition DateTime := float.
Bind Scope float_scope with DateTime.

(** [a > b], [a >= b], [a != b] of the source; [<], [<=], [==] are
    [PrimFloat.ltb], [PrimFloat.leb], [PrimFloat.eqb]. *)
Definition gtb (a b : float) : bool := b <? a.
Definition geb (a b : float) : bool := b <=? a.
Definition neb (a b : float) : bool := negb (a =? b).

(** [MIN(x, y)] of the original macros: [(x) < (y) ? (x) : (y)]. *)
Definition MIN (x y : float) : float := if x <? y then x else y.

(** The value [undefined] takes in arithmetic. *)
Definition NaN : float := nan.
End Num.
Import Num.

(* ================================================================== *)
(** ** Data model                                                      *)
(* ================================================================== *)

(** An external inflow record; the list of a node stands for the chain
    of [next] pointers.  [ext_baseline] is the data the lookup
    [inflow_getExtInflow] evaluates. *)
Record TExtInflow := mkExtInflow {
  ext_param : nat;
  ext_type : ExtInflowType;
  ext_baseline : float
}.

(** A dry weather inflow record; [dwf_param < 0] marks the flow record. *)
Record TDwfInflow := mkDwfInflow {
  dwf_param : Z;
  dwf_avgValue : float
}.

Record TNode := mkNode {
  node_type : NodeType;
  node_subIndex : nat;
  degree : Z;
  oldLatFlow : float;
  newLatFlow : float;
  oldNetInflow : float;
  oldFlowInflow : float;
  inflow : float;
  losses : float;
  newQual : list float;
  extInflow : list TExtInflow;
  dwfInflow : list TDwfInflow
}.

Record TLink := mkLink {
  link_type : LinkType;
  link_subIndex : nat;
  setting : float;
  targetSetting : float;
  timeLastSet : float
}.

Record TEvent := mkEvent { ev_start : float; ev_end : float }.

Record TGroundwater := mkGroundwater {
  gw_node : Z; gw_oldFlow : float; gw_newFlow : float
}.

Record TSubcatch := mkSubcatch {
  outNode : Z;
  area : float;
  lidArea : float;
  groundwater : option TGroundwater
}.

Record TPollut := mkPollut {
  dwfConcen : float; gwConcen : float; rdiiConcen : float
}.

Record TStorage := mkStorage { evapLoss : float; exfilLoss : float }.

Record TConduit := mkConduit {
  barrels : float; evapLossRate : float; seepLossRate : float
}.

Record TOutfall := mkOutfall {
  routeTo : Z; vRouted : float; wRouted : list float
}.

(** Options and sizes that no function of routing.js assigns. *)
Record Setup := mkSetup {
  Nobjects_NODE : nat;
  Nobjects_LINK : nat;
  Nobjects_POLLUT : nat;
  Nobjects_SUBCATCH : nat;
  NumEvents : nat;
  RouteModel : Z;
  RuleStep : float;
  SkipSteadyState : bool;
  IgnoreQuality : bool;
  SysFlowTol : float;
  LatFlowTol : float;
  StartDateTime : float;
  RptFlags_flowStats : bool;
  Finflows_mode : FileMode;
  Fhotstart1_mode : FileMode;
  FLOW_TOL : float;
  TINY : float;
  SECperDAY : float
}.

(** The shared project data: what the collaborators may change. *)
Record Project := mkProject {
  ErrorCode : Z;
  Node : list TNode;
  Link : list TLink;
  Subcatch : list TSubcatch;
  Pollut : list TPollut;
  Storage : list TStorage;
  Conduit : list TConduit;
  Outfall : list TOutfall
}.

(** Calls to procedures of other modules, as routing.js makes them.
    [undefined] arguments (the C output parameters the port passes by
    value) are [None]. *)
Inductive Call :=
  | treatmnt_open
  | toposort_sortLinks
  | iface_openRoutingFiles
  | flowrout_init (routingModel : Z)
  | qualrout_init
  | iface_closeRoutingFiles
  | flowrout_close (routingModel : Z)
  | treatmnt_close
  | FREE
  | massbal_updateRoutingTotals (tStep : float)
  | massbal_initTimeStepTotals
  | massbal_addInflowFlow (cat : InflowCategory) (q : float)
  | massbal_addInflowQual (cat : InflowCategory) (p : nat) (w : float)
  | massbal_addOutflowFlow (q : float) (isFlooded : option bool)
  | massbal_addOutflowQual (p : nat) (w : float) (isFlooded : option bool)
  | massbal_addNodeLosses (evap seep : float)
  | massbal_addLinkLosses (evap seep : float)
  | stats_updateFlowStats (tStep date : float) (stepCount : Z) (steady : bool)
  | link_setTargetSetting (j : nat)
  | controls_evaluate (currentDate elapsed tStep : float)
  | link_setSetting (j : nat) (tStep : float)
  | node_setOldQualState (j : nat)
  | link_setOldQualState (j : nat)
  | infil_setInfilFactor (j : Z)
  | node_getLosses (j : nat) (tStep : float)
  | link_setOldHydState (j : nat)
  | node_setOldHydState (j : nat)
  | node_initInflow (j : nat) (tStep : float)
  | flowrout_execute (links : option (list Z)) (routingModel : Z) (tStep : float)
  | qualrout_execute (tStep : float)
  | lid_addDrainInflow (j : nat) (f : float)
  | rdii_getRdiiFlow (i : nat).

(** The state of a simulation: the project, the variables routing.js
    owns or assigns, and two histories: the calls made so far and the
    amounts added to [newLatFlow] fields so far (node index, amount). *)
Record Sim := mkSim {
  setup : Setup;
  project : Project;
  swmm_Event : list TEvent;
  SortedLinks : option (list Z);
  NextEvent : nat;
  BetweenEvents : bool;
  NewRuleTime : float;
  OldRoutingTime : float;
  NewRoutingTime : float;
  OldRunoffTime : float;
  NewRunoffTime : float;
  ReportTime : float;
  trace : list Call;
  latAdds : list (nat * float)
}.

(** The collaborators. *)
Record Collab := mkCollab {
  (* what a procedure does to the project *)
  effect : Call -> Sim -> Project;
  (* values returned by procedures *)
  treatmnt_open_value : Sim -> bool;
  toposort_sortLinks_value : Sim -> list Z;
  node_getLosses_value : nat -> float -> Sim -> float;
  flowrout_execute_value : Sim -> Z;
  (* read-only lookups *)
  getDateTime : float -> DateTime;
  datetime_monthOfYear : DateTime -> Z;
  datetime_dayOfWeek : DateTime -> Z;
  datetime_hourOfDay : DateTime -> Z;
  flowrout_getRoutingStep : Z -> float -> Sim -> float;
  massbal_getStepFlowError : list Call -> float;
  inflow_getExtInflow : TExtInflow -> DateTime -> float;
  subcatch_getWtdOutflow : nat -> float -> float;
  surfqual_getWtdWashoff : nat -> nat -> float -> float;
  rdii_getNumRdiiFlows : DateTime -> nat;
  iface_getNumIfaceNodes : DateTime -> nat;
  iface_getIfaceNode : nat -> Z;
  iface_getIfaceFlow : nat -> float;
  iface_getIfaceQual : nat -> nat -> float;
  node_getSystemOutflow : nat -> list TNode -> float
}.

(* ------------------------------------------------------------------ *)
(** *** Field updates                                                  *)
(* ------------------------------------------------------------------ *)

Definition set_newLatFlow (v : float) (n : TNode) : TNode :=
  mkNode (node_type n) (node_subIndex n) (degree n) (oldLatFlow n) v
         (oldNetInflow n) (oldFlowInflow n) (inflow n) (losses n)
         (newQual n) (extInflow n) (dwfInflow n).

Definition set_oldLatFlow (v : float) (n : TNode) : TNode :=
  mkNode (node_type n) (node_subIndex n) (degree n) v (newLatFlow n)
         (oldNetInflow n) (oldFlowInflow n) (inflow n) (losses n)
         (newQual n) (extInflow n) (dwfInflow n).

Definition set_losses (v : float) (n : TNode) : TNode :=
  mkNode (node_type n) (node_subIndex n) (degree n) (oldLatFlow n)
         (newLatFlow n) (oldNetInflow n) (oldFlowInflow n) (inflow n) v
         (newQual n) (extInflow n) (dwfInflow n).

Definition set_newQual (v : list float) (n : TNode) : TNode :=
  mkNode (node_type n) (node_subIndex n) (degree n) (oldLatFlow n)
         (newLatFlow n) (oldNetInflow n) (oldFlowInflow n) (inflow n)
         (losses n) v (extInflow n) (dwfInflow n).

Definition set_timeLastSet (v : float) (l : TLink) : TLink :=
  mkLink (link_type l) (link_subIndex l) (setting l) (targetSetting l) v.

Definition set_ev_end (v : float) (e : TEvent) : TEvent :=
  mkEvent (ev_start e) v.

Definition set_vRouted (v : float) (o : TOutfall) : TOutfall :=
  mkOutfall (routeTo o) v (wRouted o).

Definition set_wRouted (v : list float) (o : TOutfall) : TOutfall :=
  mkOutfall (routeTo o) (vRouted o) v.

Definition set_Node (v : list TNode) (p : Project) : Project :=
  mkProject (ErrorCode p) v (Link p) (Subcatch p) (Pollut p) (Storage p)
            (Conduit p) (Outfall p).

Definition set_Link (v : list TLink) (p : Project) : Project :=
  mkProject (ErrorCode p) (Node p) v (Subcatch p) (Pollut p) (Storage p)
            (Conduit p) (Outfall p).

Definition set_Outfall (v : list TOutfall) (p : Project) : Project :=
  mkProject (ErrorCode p) (Node p) (Link p) (Subcatch p) (Pollut p)
            (Storage p) (Conduit p) v.

Definition set_project (v : Project) (m : Sim) : Sim :=
  mkSim (setup m) v (swmm_Event m) (SortedLinks m) (NextEvent m)
        (BetweenEvents m) (NewRuleTime m) (OldRoutingTime m)
        (NewRoutingTime m) (OldRunoffTime m) (NewRunoffTime m)
        (ReportTime m) (trace m) (latAdds m).

Definition set_swmm_Event (v : list TEvent) (m : Sim) : Sim :=
  mkSim (setup m) (project m) v (SortedLinks m) (NextEvent m)
        (BetweenEvents m) (NewRuleTime m) (OldRoutingTime m)
        (NewRoutingTime m) (OldRunoffTime m) (NewRunoffTime m)
        (ReportTime m) (trace m) (latAdds m).

Definition set_SortedLinks (v : option (list Z)) (m : Sim) : Sim :=
  mkSim (setup m) (project m) (swmm_Event m) v (NextEvent m)
        (BetweenEvents m) (NewRuleTime m) (OldRoutingTime m)
        (NewRoutingTime m) (OldRunoffTime m) (NewRunoffTime m)
        (ReportTime m) (trace m) (latAdds m).

Definition set_NextEvent (v : nat) (m : Sim) : Sim :=
  mkSim (setup m) (project m) (swmm_Event m) (SortedLinks m) v
        (BetweenEvents m) (NewRuleTime m) (OldRoutingTime m)
        (NewRoutingTime m) (OldRunoffTime m) (NewRunoffTime m)
        (ReportTime m) (trace m) (latAdds m).

Definition set_BetweenEvents (v : bool) (m : Sim) : Sim :=
  mkSim (setup m) (project m) (swmm_Event m) (SortedLinks m) (NextEvent m)
        v (NewRuleTime m) (OldRoutingTime m)
        (NewRoutingTime m) (OldRunoffTime m) (NewRunoffTime m)
        (ReportTime m) (trace m) (latAdds m).

Definition set_NewRuleTime (v : float) (m : Sim) : Sim :=
  mkSim (setup m) (project m) (swmm_Event m) (SortedLinks m) (NextEvent m)
        (BetweenEvents m) v (OldRoutingTime m)
        (NewRoutingTime m) (OldRunoffTime m) (NewRunoffTime m)
        (ReportTime m) (trace m) (latAdds m).

Definition set_OldRoutingTime (v : float) (m : Sim) : Sim :=
  mkSim (setup m) (project m) (swmm_Event m) (SortedLinks m) (NextEvent m)
        (BetweenEvents m) (NewRuleTime m) v
        (NewRoutingTime m) (OldRunoffTime m) (NewRunoffTime m)
        (ReportTime m) (trace m) (latAdds m).

Definition set_NewRoutingTime (v : float) (m : Sim) : Sim :=
  mkSim (setup m) (project m) (swmm_Event m) (SortedLinks m) (NextEvent m)
        (BetweenEvents m) (NewRuleTime m) (OldRoutingTime m)
        v (OldRunoffTime m) (NewRunoffTime m)
        (ReportTime m) (trace m) (latAdds m).

Definition set_trace (v : list Call) (m : Sim) : Sim :=
  mkSim (setup m) (project m) (swmm_Event m) (SortedLinks m) (NextEvent m)
        (BetweenEvents m) (NewRuleTime m) (OldRoutingTime m)
        (NewRoutingTime m) (OldRunoffTime m) (NewRunoffTime m)
        (ReportTime m) v (latAdds m).

Definition set_latAdds (v : list (nat * float)) (m : Sim) : Sim :=
  mkSim (setup m) (project m) (swmm_Event m) (SortedLinks m) (NextEvent m)
        (BetweenEvents m) (NewRuleTime m) (OldRoutingTime m)
        (NewRoutingTime m) (OldRunoffTime m) (NewRunoffTime m)
        (ReportTime m) (trace m) v.

(* ================================================================== *)
(** ** The monad of the embedding: state and JavaScript exceptions     *)
(* ================================================================== *)

(** The two exceptions routing.js can raise by itself: evaluating an
    identifier that is not declared, and reading a property of
    [undefined] (an array element that does not exist). *)
Inductive Exn :=
  | ReferenceError (identifier : string)
  | TypeError (array : string).

Inductive Res (A : Type) :=
  | Ok (a : A) (m : Sim)
  | Throw (e : Exn) (m : Sim).
Arguments Ok {A} a m.
Arguments Throw {A} e m.

Definition M (A : Type) := Sim -> Res A.

Definition ret {A} (a : A) : M A := fun m => Ok a m.

Definition bind {A B} (c : M A) (f : A -> M B) : M B :=
  fun m => match c m with
           | Ok a m1 => f a m1
           | Throw e m1 => Throw e m1
           end.

Definition throw {A} (e : Exn) : M A := fun m => Throw e m.

Declare Scope js_scope.
Delimit Scope js_scope with js.
Notation "x <- c1 ;; c2" := (bind c1 (fun x => c2))
  (at level 100, c1 at next level, right associativity) : js_scope.
Notation "c1 ;; c2" := (bind c1 (fun _ => c2))
  (at level 100, right associativity) : js_scope.
#[local] Open Scope js_scope.

Definition get : M Sim := fun m => Ok m m.
Definition gets {A} (f : Sim -> A) : M A := fun m => Ok (f m) m.
Definition modify (f : Sim -> Sim) : M unit := fun m => Ok tt (f m).

(** [for (j = lo; j < lo + n; j++) body(j)]. *)
Fixpoint for_loop (j n : nat) (body : nat -> M unit) : M unit :=
  match n with
  | O => ret tt
  | S n' => body j ;; for_loop (S j) n' body
  end.

(** Reading an element of an array of objects in order to read one of
    its properties: an index out of range yields [undefined], whose
    property read raises a TypeError. *)
Definition element {A} (name : string) (arr : Sim -> list A) (j : nat) : M A :=
  fun m => match arr m !! j with
           | Some x => Ok x m
           | None => Throw (TypeError name) m
           end.

Definition log (c : Call) : M unit :=
  modify (fun m => set_trace (trace m ++ [c]) m).

(** [for (j = lo; ...; j++)] with local variables [a] carried along. *)
Fixpoint for_fold {A} (j n : nat) (body : nat -> A -> M A) (a : A) : M A :=
  match n with
  | O => ret a
  | S n' => a1 <- body j a ;; for_fold (S j) n' body a1
  end.

(** [while (inflow) { body; inflow = inflow.next }] over a chain. *)
Fixpoint for_each {A} (l : list A) (body : A -> M unit) : M unit :=
  match l with
  | [] => ret tt
  | x :: l' => body x ;; for_each l' body
  end.

(** [arr[p] += w] on an array of numbers: beyond the end the element
    read is [undefined], the sum is NaN and the array grows (its holes
    read as [undefined], NaN in arithmetic). *)
Definition array_add (p : nat) (w : float) (arr : list float) : list float :=
  match arr !! p with
  | Some x => <[p := (x + w)%float]> arr
  | None => arr ++ replicate (p - length arr) NaN ++ [NaN]
  end.

(** [arr[p]] used as a number. *)
Definition array_get (arr : list float) (p : nat) : float :=
  match arr !! p with Some x => x | None => NaN end.

(* ================================================================== *)
(** ** routing.js                                                      *)
(* ================================================================== *)

Section Routing.

Variable X : Collab.

#[local] Open Scope float_scope.

(** A procedure of another module: logged, and the project becomes
    what the collaborator makes of it. *)
Definition call (c : Call) : M unit :=
  modify (fun m => set_trace (trace m ++ [c]) (set_project (effect X c m) m)).

Definition Node_ (j : nat) : M TNode := element "Node" (fun m => Node (project m)) j.
Definition Link_ (j : nat) : M TLink := element "Link" (fun m => Link (project m)) j.
Definition Event_ (j : nat) : M TEvent := element "swmm_Event" swmm_Event j.

Definition set_Node_at (j : nat) (f : TNode -> TNode) : M unit :=
  nd <- Node_ j ;;
  modify (fun m => set_project (set_Node (<[j := f nd]> (Node (project m))) (project m)) m).

(** [Node[j].newLatFlow += q]; the amount is also noted in [latAdds]. *)
Definition addLatFlow (j : nat) (q : float) : M unit :=
  set_Node_at j (fun nd => set_newLatFlow (newLatFlow nd + q) nd) ;;
  modify (fun m => set_latAdds (latAdds m ++ [(j, q)]) m).

(** [Node[j].newQual[p] += w]. *)
Definition addQual (j p : nat) (w : float) : M unit :=
  set_Node_at j (fun nd => set_newQual (array_add p w (newQual nd)) nd).

(* ------------------------------------------------------------------ *)
(** *** sortEvents (lines 858-888)                                     *)
(* ------------------------------------------------------------------ *)

(** The body of the exchange sort (lines 874-879). *)
Definition exchangeEvents (i j : nat) : M unit :=
  ei <- Event_ i ;;
  ej <- Event_ j ;;
  if gtb (ev_start ei) (ev_start ej) then
    modify (fun m =>
      set_swmm_Event (<[i := ej]> (<[j := ei]> (swmm_Event m))) m)
  else ret tt.

(** The body of the adjustment for overlapping events (line 886). *)
Definition clipEvent (i : nat) : M unit :=
  ei <- Event_ i ;;
  ei1 <- Event_ (i + 1) ;;
  if gtb (ev_end ei) (ev_start ei1) then
    modify (fun m =>
      set_swmm_Event (<[i := set_ev_end (ev_start ei1) ei]> (swmm_Event m)) m)
  else ret tt.

Definition sortEvents : M unit :=
  n <- gets (fun m => NumEvents (setup m)) ;;
  (* Apply simple exchange sort to event list *)
  for_loop 0 (n - 1) (fun i =>
    for_loop (i + 1) (n - (i + 1)) (exchangeEvents i)) ;;
  (* Adjust for overlapping events *)
  for_loop 0 (n - 1) clipEvent.

(* ------------------------------------------------------------------ *)
(** *** routing_open (lines 67-105)                                    *)
(* ------------------------------------------------------------------ *)

Definition routing_open : M Z :=
  (* --- open treatment system *)
  ok <- gets (treatmnt_open_value X) ;;
  call treatmnt_open ;;
  if negb ok then gets (fun m => ErrorCode (project m)) else
  (* --- topologically sort the links *)
  modify (set_SortedLinks None) ;;
  nlinks <- gets (fun m => Nobjects_LINK (setup m)) ;;
  stop <-
    (if (0 <? nlinks)%nat then
       (* [new Array(n)] is an object: the test [!SortedLinks] fails *)
       order <- gets (toposort_sortLinks_value X) ;;
       call toposort_sortLinks ;;
       modify (set_SortedLinks (Some order)) ;;
       gets (fun m => negb (ErrorCode (project m) =? 0)%Z)
     else ret false) ;;
  if (stop : bool) then gets (fun m => ErrorCode (project m)) else
  (* --- open any routing interface files *)
  call iface_openRoutingFiles ;;
  (* --- initialize flow and quality routing systems *)
  rm <- gets (fun m => RouteModel (setup m)) ;;
  call (flowrout_init rm) ;;
  hot <- gets (fun m => Fhotstart1_mode (setup m)) ;;
  (if bool_decide (hot = NO_FILE) then call qualrout_init else ret tt) ;;
  (* --- initialize routing events *)
  nev <- gets (fun m => NumEvents (setup m)) ;;
  (if (0 <? nev)%nat then sortEvents else ret tt) ;;
  modify (set_NextEvent 0) ;;
  modify (set_BetweenEvents (0 <? nev)%nat) ;;
  modify (set_NewRuleTime 0) ;;
  gets (fun m => ErrorCode (project m)).

(* ------------------------------------------------------------------ *)
(** *** routing_close (lines 109-123)                                  *)
(* ------------------------------------------------------------------ *)

Definition routing_close (routingModel : Z) : M unit :=
  (* --- close any routing interface files *)
  call iface_closeRoutingFiles ;;
  (* --- free allocated memory *)
  call (flowrout_close routingModel) ;;
  call treatmnt_close ;;
  call FREE.

(* ------------------------------------------------------------------ *)
(** *** routing_getRoutingStep (lines 129-176)                         *)
(* ------------------------------------------------------------------ *)

(** Lines 165-175: clip the step at the next control rule time. *)
Definition clipToRuleStep (routingStep : float) : M float :=
  m <- get ;;
  if gtb (RuleStep (setup m)) 0 then
    let nextRuleTime := NewRuleTime m + 1000 * RuleStep (setup m) in
    let nextRoutingTime := NewRoutingTime m + 1000 * routingStep in
    if geb nextRoutingTime nextRuleTime
    then ret ((nextRuleTime - NewRoutingTime m) / 1000)
    else ret routingStep
  else ret routingStep.

(** Lines 142-157: [inl s] is [return s]; [inr s] goes on with
    [routingStep = s]. *)
Definition stepBetweenEvents (fixedStep : float) : M (float + float) :=
  m <- get ;;
  if (0 <? NumEvents (setup m))%nat && BetweenEvents m then
    let nextTime := MIN (NewRunoffTime m) (ReportTime m) in
    let date1 := getDateTime X (NewRoutingTime m) in
    let date2 := getDateTime X nextTime in
    let otherwise : M (float + float) :=
      let date1 := getDateTime X (NewRoutingTime m + 1000 * fixedStep) in
      ev <- Event_ (NextEvent m) ;;
      if date1 <? ev_start ev then ret (inl fixedStep) else ret (inr 0) in
    if gtb date2 date1 then
      ev <- Event_ (NextEvent m) ;;
      if date2 <? ev_start ev
      then ret (inr ((nextTime - NewRoutingTime m) / 1000))
      else otherwise
    else otherwise
  else ret (inr 0).

Definition routing_getRoutingStep (routingModel : Z) (fixedStep : float) : M float :=
  nlinks <- gets (fun m => Nobjects_LINK (setup m)) ;;
  if (nlinks =? 0)%nat then ret fixedStep else
  (* --- find largest step possible if between routing events *)
  r <- stepBetweenEvents fixedStep ;;
  match r with
  | inl s => ret s
  | inr routingStep =>
    (* --- otherwise use a regular flow-routing based time step *)
    routingStep <-
      (if routingStep =? 0
       then gets (flowrout_getRoutingStep X routingModel fixedStep)
       else ret routingStep) ;;
    (* --- determine if control rule time interval reached *)
    clipToRuleStep routingStep
  end.

(* ------------------------------------------------------------------ *)
(** *** addExternalInflows (lines 346-402)                             *)
(* ------------------------------------------------------------------ *)

(** The first loop over the chain: the value of the first record of
    type FLOW_INFLOW, [0.0] when there is none. *)
Definition extFlowInflow (currentDate : DateTime) (l : list TExtInflow) : float :=
  match List.find (fun i => bool_decide (ext_type i = FLOW_INFLOW)) l with
  | Some i => inflow_getExtInflow X i currentDate
  | None => 0
  end.

(** [if ( Math.abs(q) < FLOW_TOL ) q = 0.0]. *)
Definition zeroBelowTol (tol q : float) : float :=
  if abs q <? tol then 0 else q.

(** Line 382: the flow that multiplies concentrations. *)
Definition withReverseFlow (nd : TNode) (q : float) : float :=
  if bool_decide (node_type nd = OUTFALL) && (oldNetInflow nd <? 0)
  then q - oldNetInflow nd else q.

(** Lines 391-398: the mass inflow of one record of the chain; [q] is
    the flow that multiplies concentrations. *)
Definition addExternalQual (currentDate : DateTime) (j : nat) (q : float)
    (inflow : TExtInflow) : M unit :=
  if bool_decide (ext_type inflow = FLOW_INFLOW) then ret tt else
    let p := ext_param inflow in
    let w := inflow_getExtInflow X inflow currentDate in
    let w := if bool_decide (ext_type inflow = CONCEN_INFLOW) then w * q else w in
    addQual j p w ;;
    log (massbal_addInflowQual EXTERNAL_INFLOW p w).

(** The body of the loop for node [j]. *)
Definition addExternalInflows_node (currentDate : DateTime) (j : nat) : M unit :=
  nd <- Node_ j ;;
  match extInflow nd with
  | [] => ret tt
  | _ =>
    tol <- gets (fun m => FLOW_TOL (setup m)) ;;
    (* --- get flow inflow *)
    let q := zeroBelowTol tol (extFlowInflow currentDate (extInflow nd)) in
    (* --- add flow inflow to node's lateral inflow *)
    addLatFlow j q ;;
    log (massbal_addInflowFlow EXTERNAL_INFLOW q) ;;
    (* --- add on any inflow (i.e., reverse flow) through an outfall *)
    nd1 <- Node_ j ;;
    let q := withReverseFlow nd1 q in
    (* --- get pollutant mass inflows *)
    for_each (extInflow nd1) (addExternalQual currentDate j q)
  end.

Definition addExternalInflows (currentDate : DateTime) : M unit :=
  n <- gets (fun m => Nobjects_NODE (setup m)) ;;
  for_loop 0 n (addExternalInflows_node currentDate).

(* ------------------------------------------------------------------ *)
(** *** addDryWeatherInflows (lines 406-500)                           *)
(* ------------------------------------------------------------------ *)

(** Lines 443 and 481 pass [inObj] to [inflow_getDwfInflow].  No
    declaration of [inObj] exists: evaluating the argument raises a
    ReferenceError before the call is made. *)
Definition inflow_getDwfInflow_inObj : M float := throw (ReferenceError "inObj").

(** The first loop over the chain (lines 436-451). *)
Fixpoint dwfFlowInflow (l : list TDwfInflow) : M float :=
  match l with
  | [] => ret 0
  | inflow :: l' =>
      if (dwf_param inflow <? 0)%Z
      then inflow_getDwfInflow_inObj
      else dwfFlowInflow l'
  end.

Definition addDryWeatherInflows_node (j : nat) : M unit :=
  nd <- Node_ j ;;
  match dwfInflow nd with
  | [] => ret tt
  | _ =>
    tol <- gets (fun m => FLOW_TOL (setup m)) ;;
    npollut <- gets (fun m => Nobjects_POLLUT (setup m)) ;;
    (* --- get flow inflow (i.e., the inflow whose param code is -1) *)
    q <- dwfFlowInflow (dwfInflow nd) ;;
    let q := zeroBelowTol tol q in
    (* --- add flow inflow to node's lateral inflow *)
    addLatFlow j q ;;
    log (massbal_addInflowFlow DRY_WEATHER_INFLOW q) ;;
    (* --- stop if inflow is non-positive *)
    if q <=? 0 then ret tt else
    (* --- add default DWF pollutant inflows *)
    for_loop 0 npollut (fun p =>
      pol <- element "Pollut" (fun m => Pollut (project m)) p ;;
      if gtb (dwfConcen pol) 0 then
        let w := q * dwfConcen pol in
        addQual j p w ;;
        log (massbal_addInflowQual DRY_WEATHER_INFLOW p w)
      else ret tt) ;;
    (* --- get pollutant mass inflows *)
    nd1 <- Node_ j ;;
    for_each (dwfInflow nd1) (fun inflow =>
      if (0 <=? dwf_param inflow)%Z then
        let p := Z.to_nat (dwf_param inflow) in
        returnVal <- inflow_getDwfInflow_inObj ;;
        let w := q * returnVal in
        addQual j p w ;;
        log (massbal_addInflowQual DRY_WEATHER_INFLOW p w) ;;
        (* --- subtract off any default inflow *)
        pol <- element "Pollut" (fun m => Pollut (project m)) p ;;
        if gtb (dwfConcen pol) 0 then
          let w := q * dwfConcen pol in
          set_Node_at j (fun nd =>
            set_newQual (array_add p (- w) (newQual nd)) nd) ;;
          log (massbal_addInflowQual DRY_WEATHER_INFLOW p (- w))
        else ret tt
      else ret tt)
  end.

(** [month], [day] and [hour] are looked up first (lines 425-427); they
    are only ever passed to the call that is not reached. *)
Definition addDryWeatherInflows (currentDate : DateTime) : M unit :=
  let month := (datetime_monthOfYear X currentDate - 1)%Z in
  let day := (datetime_dayOfWeek X currentDate - 1)%Z in
  let hour := datetime_hourOfDay X currentDate in
  n <- gets (fun m => Nobjects_NODE (setup m)) ;;
  for_loop 0 n addDryWeatherInflows_node.

(* ------------------------------------------------------------------ *)
(** *** addWetWeatherInflows, addGroundwaterInflows, addLidDrainInflows *)
(* ------------------------------------------------------------------ *)

(** Lines 517-519: where the routing time lies between the latest
    runoff times. *)
Definition runoffFraction (routingTime : float) (m : Sim) : float :=
  let f := (routingTime - OldRunoffTime m) / (NewRunoffTime m - OldRunoffTime m) in
  let f := if f <? 0 then 0 else f in
  if gtb f 1 then 1 else f.

Definition Subcatch_ (i : nat) : M TSubcatch :=
  element "Subcatch" (fun m => Subcatch (project m)) i.

Definition addWetWeatherInflows (routingTime : float) : M unit :=
  nsub <- gets (fun m => Nobjects_SUBCATCH (setup m)) ;;
  npollut <- gets (fun m => Nobjects_POLLUT (setup m)) ;;
  if (nsub =? 0)%nat then ret tt else
  f <- gets (runoffFraction routingTime) ;;
  for_loop 0 nsub (fun i =>
    sc <- Subcatch_ i ;;
    let j := outNode sc in
    if (0 <=? j)%Z then
      (* add runoff flow to lateral inflow *)
      let q := subcatch_getWtdOutflow X i f in
      addLatFlow (Z.to_nat j) q ;;
      log (massbal_addInflowFlow WET_WEATHER_INFLOW q) ;;
      (* add pollutant load *)
      for_loop 0 npollut (fun p =>
        let w := surfqual_getWtdWashoff X i p f in
        addQual (Z.to_nat j) p w ;;
        log (massbal_addInflowQual WET_WEATHER_INFLOW p w))
    else ret tt).

Definition addGroundwaterInflows (routingTime : float) : M unit :=
  nsub <- gets (fun m => Nobjects_SUBCATCH (setup m)) ;;
  npollut <- gets (fun m => Nobjects_POLLUT (setup m)) ;;
  tol <- gets (fun m => FLOW_TOL (setup m)) ;;
  if (nsub =? 0)%nat then ret tt else
  f <- gets (runoffFraction routingTime) ;;
  for_loop 0 nsub (fun i =>
    (* --- see if subcatch contains groundwater *)
    sc <- Subcatch_ i ;;
    match groundwater sc with
    | None => ret tt
    | Some gw =>
      (* --- identify node receiving groundwater flow *)
      let j := gw_node gw in
      if (0 <=? j)%Z then
        (* add groundwater flow to lateral inflow *)
        sc1 <- Subcatch_ i ;;
        let q := ((1 - f) * gw_oldFlow gw + f * gw_newFlow gw) * area sc1 in
        if abs q <? tol then ret tt else
        addLatFlow (Z.to_nat j) q ;;
        log (massbal_addInflowFlow GROUNDWATER_INFLOW q) ;;
        (* add pollutant load (for positive inflow) *)
        if gtb q 0 then
          for_loop 0 npollut (fun p =>
            pol <- element "Pollut" (fun m => Pollut (project m)) p ;;
            let w := q * gwConcen pol in
            addQual (Z.to_nat j) p w ;;
            log (massbal_addInflowQual GROUNDWATER_INFLOW p w))
        else ret tt
      else ret tt
    end).

Definition addLidDrainInflows (routingTime : float) : M unit :=
  nsub <- gets (fun m => Nobjects_SUBCATCH (setup m)) ;;
  if (nsub =? 0)%nat then ret tt else
  f <- gets (runoffFraction routingTime) ;;
  for_loop 0 nsub (fun j =>
    sc <- Subcatch_ j ;;
    if gtb (area sc) 0 then
      sc1 <- Subcatch_ j ;;
      if gtb (lidArea sc1) 0 then call (lid_addDrainInflow j f) else ret tt
    else ret tt).

(* ------------------------------------------------------------------ *)
(** *** addRdiiInflows, addIfaceInflows (lines 624-698)                *)
(* ------------------------------------------------------------------ *)

(** [rdii_getRdiiFlow(i, j, q)] receives the values of [j] and [q],
    which are never assigned: both stay [undefined].  Then
    [undefined < 0] and [Math.abs(undefined) < FLOW_TOL] are false, no
    [continue] is taken, and [Node[undefined].newLatFlow] reads a
    property of [undefined]. *)
Definition addRdiiInflows (currentDate : DateTime) : M unit :=
  (* --- see if any nodes have RDII at current date *)
  let numRdiiNodes := rdii_getNumRdiiFlows X currentDate in
  (* --- add RDII flow to each node's lateral inflow *)
  for_loop 0 numRdiiNodes (fun i =>
    call (rdii_getRdiiFlow i) ;;
    throw (TypeError "Node")).

Definition addIfaceInflows (currentDate : DateTime) : M unit :=
  mode <- gets (fun m => Finflows_mode (setup m)) ;;
  npollut <- gets (fun m => Nobjects_POLLUT (setup m)) ;;
  tol <- gets (fun m => FLOW_TOL (setup m)) ;;
  (* --- see if any nodes have interface inflows at current date *)
  if negb (bool_decide (mode = USE_FILE)) then ret tt else
  let numIfaceNodes := iface_getNumIfaceNodes X currentDate in
  (* --- add interface flow to each node's lateral inflow *)
  for_loop 0 numIfaceNodes (fun i =>
    let j := iface_getIfaceNode X i in
    if (j <? 0)%Z then ret tt else
    let q := iface_getIfaceFlow X i in
    if abs q <? tol then ret tt else
    addLatFlow (Z.to_nat j) q ;;
    log (massbal_addInflowFlow EXTERNAL_INFLOW q) ;;
    (* add pollutant load (for positive inflow) *)
    if gtb q 0 then
      for_loop 0 npollut (fun p =>
        let w := q * iface_getIfaceQual X i p in
        addQual (Z.to_nat j) p w ;;
        log (massbal_addInflowQual EXTERNAL_INFLOW p w))
    else ret tt).

(* ------------------------------------------------------------------ *)
(** *** inflowHasChanged (lines 704-736)                               *)
(* ------------------------------------------------------------------ *)

(** Lines 721-723 and 729-731. *)
Definition relativeChange (tiny qOld qNew : float) : float :=
  if gtb (abs qOld) tiny then (qNew / qOld) - 1
  else if gtb (abs qNew) tiny then 1
  else 0.

(** The test on lateral inflow (line 724). *)
Definition latFlowChanged (s : Setup) (nd : TNode) : bool :=
  gtb (abs (relativeChange (TINY s) (oldLatFlow nd) (newLatFlow nd))) (LatFlowTol s).

(** The test on total inflow of outfalls and of nodes without links
    (lines 725-733). *)
Definition boundaryFlowChanged (s : Setup) (nd : TNode) : bool :=
  (bool_decide (node_type nd = OUTFALL) || (degree nd =? 0)%Z)
  && gtb (abs (relativeChange (TINY s) (oldFlowInflow nd) (inflow nd))) (LatFlowTol s).

Fixpoint inflowHasChanged_from (j n : nat) : M bool :=
  match n with
  | O => ret false
  | S n' =>
      s <- gets setup ;;
      nd <- Node_ j ;;
      if latFlowChanged s nd then ret true
      else if boundaryFlowChanged s nd then ret true
      else inflowHasChanged_from (S j) n'
  end.

Definition inflowHasChanged : M bool :=
  n <- gets (fun m => Nobjects_NODE (setup m)) ;;
  inflowHasChanged_from 0 n.

(* ------------------------------------------------------------------ *)
(** *** removeStorageLosses, removeConduitLosses (lines 740-796)       *)
(* ------------------------------------------------------------------ *)

Definition removeStorageLosses (tStep : float) : M unit :=
  n <- gets (fun m => Nobjects_NODE (setup m)) ;;
  (* --- check each storage node *)
  tot <- for_fold 0 n (fun i '(evap, exfil) =>
    nd <- Node_ i ;;
    if bool_decide (node_type nd = STORAGE) then
      (* --- update total system storage losses *)
      st <- element "Storage" (fun m => Storage (project m)) (node_subIndex nd) ;;
      ret (evap + evapLoss st, exfil + exfilLoss st)
    else ret (evap, exfil)) (0, 0) ;;
  (* --- add loss rates (ft3/sec) to time step's mass balance *)
  log (massbal_addNodeLosses (fst tot / tStep) (snd tot / tStep)).

Definition removeConduitLosses : M unit :=
  n <- gets (fun m => Nobjects_LINK (setup m)) ;;
  tot <- for_fold 0 n (fun i '(evap, seep) =>
    lk <- Link_ i ;;
    if bool_decide (link_type lk = CONDUIT) then
      (* --- retrieve number of barrels *)
      let k := link_subIndex lk in
      c <- element "Conduit" (fun m => Conduit (project m)) k ;;
      (* --- update total conduit losses *)
      ret (evap + evapLossRate c * barrels c, seep + seepLossRate c * barrels c)
    else ret (evap, seep)) (0, 0) ;;
  log (massbal_addLinkLosses (fst tot) (snd tot)).

(* ------------------------------------------------------------------ *)
(** *** removeOutflows (lines 800-854)                                 *)
(* ------------------------------------------------------------------ *)

Definition Outfall_ (k : nat) : M TOutfall :=
  element "Outfall" (fun m => Outfall (project m)) k.

Definition set_Outfall_at (k : nat) (f : TOutfall -> TOutfall) : M unit :=
  o <- Outfall_ k ;;
  modify (fun m =>
    set_project (set_Outfall (<[k := f o]> (Outfall (project m))) (project m)) m).

(** Lines 814-825: accumulate inflow volume & pollutant load at
    outfalls. *)
Definition accumulateRouted (tStep : float) (i : nat) : M unit :=
  npollut <- gets (fun m => Nobjects_POLLUT (setup m)) ;;
  nd <- Node_ i ;;
  if bool_decide (node_type nd = OUTFALL) && gtb (inflow nd) 0 then
    let k := node_subIndex nd in
    o <- Outfall_ k ;;
    if (0 <=? routeTo o)%Z then
      let v := inflow nd * tStep in
      set_Outfall_at k (fun o => set_vRouted (vRouted o + v) o) ;;
      for_loop 0 npollut (fun p =>
        nd1 <- Node_ i ;;
        set_Outfall_at k (fun o =>
          set_wRouted (array_add p (array_get (newQual nd1) p * v) (wRouted o)) o))
    else ret tt
  else ret tt.

(** Lines 827-839: the system outflow of node [i].  [isFlooded] is
    declared and never assigned: the calls receive [undefined]. *)
Definition reportSystemOutflow (i : nat) : M unit :=
  npollut <- gets (fun m => Nobjects_POLLUT (setup m)) ;;
  q <- gets (fun m => node_getSystemOutflow X i (Node (project m))) ;;
  if gtb q 0 then
    log (massbal_addOutflowFlow q None) ;;
    for_loop 0 npollut (fun p =>
      nd <- Node_ i ;;
      let w := q * array_get (newQual nd) p in
      log (massbal_addOutflowQual p w None))
  else log (massbal_addInflowFlow EXTERNAL_INFLOW (- q)).

(** Lines 841-851: mass leaving through negative lateral inflows. *)
Definition reportLateralOutflow (i : nat) : M unit :=
  npollut <- gets (fun m => Nobjects_POLLUT (setup m)) ;;
  nd <- Node_ i ;;
  let q := newLatFlow nd in
  if q <? 0 then
    for_loop 0 npollut (fun p =>
      nd1 <- Node_ i ;;
      let w := (- q) * array_get (newQual nd1) p in
      log (massbal_addOutflowQual p w (Some false)))
  else ret tt.

Definition removeOutflows_node (tStep : float) (i : nat) : M unit :=
  accumulateRouted tStep i ;;
  reportSystemOutflow i ;;
  reportLateralOutflow i.

Definition removeOutflows (tStep : float) : M unit :=
  n <- gets (fun m => Nobjects_NODE (setup m)) ;;
  for_loop 0 n (removeOutflows_node tStep).

(* ------------------------------------------------------------------ *)
(** *** routing_execute (lines 180-342)                                *)
(* ------------------------------------------------------------------ *)

(** Lines 214-227: change each link's actual setting if it differs
    from its target; the result is [actionCount]. *)
Definition changeLinkSettings (currentDate : DateTime) (routingStep : float) : M nat :=
  n <- gets (fun m => Nobjects_LINK (setup m)) ;;
  for_fold 0 n (fun j actionCount =>
    lk <- Link_ j ;;
    if neb (targetSetting lk) (setting lk) then
      (* --- update time when link was switched between open & closed *)
      lk1 <- Link_ j ;;
      (if targetSetting lk1 * setting lk1 =? 0 then
         modify (fun m => set_project
           (set_Link (<[j := set_timeLastSet currentDate lk1]> (Link (project m)))
                     (project m)) m)
       else ret tt) ;;
      (* --- implement the change in the link's setting *)
      call (link_setSetting j routingStep) ;;
      ret (S actionCount)
    else ret actionCount) O.

(** Lines 252-257: initialize lateral inflows at nodes. *)
Definition initLateralInflows : M unit :=
  n <- gets (fun m => Nobjects_NODE (setup m)) ;;
  for_loop 0 n (fun j =>
    set_Node_at j (fun nd => set_oldLatFlow (newLatFlow nd) nd) ;;
    set_Node_at j (set_newLatFlow 0)).

(** Lines 259-271: check if can skip non-event periods. *)
Definition checkEvents (currentDate : DateTime) : M unit :=
  nev <- gets (fun m => NumEvents (setup m)) ;;
  if (0 <? nev)%nat then
    k <- gets NextEvent ;;
    ev <- Event_ k ;;
    if gtb currentDate (ev_end ev) then
      modify (set_BetweenEvents true) ;;
      modify (fun m => set_NextEvent (S (NextEvent m)) m)
    else
      ev1 <- Event_ k ;;
      be <- gets BetweenEvents ;;
      if geb currentDate (ev_start ev1) && be
      then modify (set_BetweenEvents false)
      else ret tt
  else ret tt.

(** Lines 195-271: everything up to the event check.  The result is
    [(currentDate, actionCount, stepFlowError)]. *)
Definition beginStep (routingStep : float) : M (DateTime * nat * float) :=
  s <- gets setup ;;
  (* --- update continuity with current state *)
  log (massbal_updateRoutingTotals (routingStep / 2)) ;;
  (* --- find new link target settings *)
  for_loop 0 (Nobjects_LINK s) (fun j => call (link_setTargetSetting j)) ;;
  (* --- find date of start of current time period *)
  currentDate <- gets (fun m => getDateTime X (NewRoutingTime m)) ;;
  (* --- evaluate control rules if next evaluation time reached *)
  m <- get ;;
  (if (RuleStep s =? 0) || (abs (NewRoutingTime m - NewRuleTime m) <? 1)
   then call (controls_evaluate currentDate (currentDate - StartDateTime s)
                                (routingStep / SECperDAY s))
   else ret tt) ;;
  (* --- change each link's actual setting if it differs from its target *)
  actionCount <- changeLinkSettings currentDate routingStep ;;
  (* --- update value of elapsed routing time (in milliseconds) *)
  modify (fun m => set_OldRoutingTime (NewRoutingTime m) m) ;;
  modify (fun m => set_NewRoutingTime (NewRoutingTime m + 1000 * routingStep) m) ;;
  (* --- see if control rule evaluation time should be advanced *)
  m <- get ;;
  (if abs (NewRoutingTime m - (NewRuleTime m + 1000 * RuleStep s)) <? 1
   then modify (fun m => set_NewRuleTime (NewRuleTime m + 1000 * RuleStep s) m)
   else ret tt) ;;
  (* --- initialize mass balance totals for time step *)
  stepFlowError <- gets (fun m => massbal_getStepFlowError X (trace m)) ;;
  log massbal_initTimeStepTotals ;;
  (* --- replace old water quality state with new state *)
  (if (0 <? Nobjects_POLLUT s)%nat then
     for_loop 0 (Nobjects_NODE s) (fun j => call (node_setOldQualState j)) ;;
     for_loop 0 (Nobjects_LINK s) (fun j => call (link_setOldQualState j))
   else ret tt) ;;
  (* --- set infiltration factor for storage unit seepage *)
  call (infil_setInfilFactor (-1)) ;;
  (* --- initialize lateral inflows at nodes *)
  initLateralInflows ;;
  (* --- check if can skip non-event periods *)
  checkEvents currentDate ;;
  ret (currentDate, actionCount, stepFlowError).

(** Lines 276-289: storage losses and the seven kinds of lateral
    inflow. *)
Definition addInflows (currentDate : DateTime) (routingStep : float) : M unit :=
  n <- gets (fun m => Nobjects_NODE (setup m)) ;;
  (* --- find evap. & seepage losses from storage nodes *)
  for_loop 0 n (fun j =>
    _ <- Node_ j ;;
    v <- gets (node_getLosses_value X j routingStep) ;;
    call (node_getLosses j routingStep) ;;
    set_Node_at j (set_losses v)) ;;
  (* --- add lateral inflows and evap/seepage losses at nodes *)
  oldTime <- gets OldRoutingTime ;;
  addExternalInflows currentDate ;;
  addDryWeatherInflows currentDate ;;
  addWetWeatherInflows oldTime ;;
  addGroundwaterInflows oldTime ;;
  addLidDrainInflows oldTime ;;
  addRdiiInflows currentDate ;;
  addIfaceInflows currentDate.

(** Lines 291-299: check if can skip steady state periods based on
    flows.  The result is the value of [inSteadyState]. *)
Definition steadyStateTest (actionCount : nat) (stepFlowError : float) : M bool :=
  m <- get ;;
  if SkipSteadyState (setup m) then
    if (OldRoutingTime m =? 0)
       || (0 <? actionCount)%nat
       || gtb (abs stepFlowError) (SysFlowTol (setup m))
    then ret false
    else
      changed <- inflowHasChanged ;;
      if changed then ret false else ret true
  else ret false.

(** Lines 301-317: find new hydraulic state if system has changed.
    The result is the value of [stepCount]. *)
Definition findHydraulicState (routingModel : Z) (routingStep : float)
    (inSteadyState : bool) : M Z :=
  s <- gets setup ;;
  if negb inSteadyState then
    (* --- replace old hydraulic state values with current ones *)
    for_loop 0 (Nobjects_LINK s) (fun j => call (link_setOldHydState j)) ;;
    for_loop 0 (Nobjects_NODE s) (fun j =>
      call (node_setOldHydState j) ;;
      call (node_initInflow j routingStep)) ;;
    (* --- route flow through the drainage network *)
    if (0 <? Nobjects_LINK s)%nat then
      links <- gets SortedLinks ;;
      stepCount <- gets (flowrout_execute_value X) ;;
      call (flowrout_execute links routingModel routingStep) ;;
      ret stepCount
    else ret 1%Z
  else ret 1%Z.

(** The values of the local variables when the function returns. *)
Record Locals := mkLocals {
  stepCount : Z;
  actionCount : nat;
  inSteadyState : bool
}.

Definition routing_execute (routingModel : Z) (routingStep : float) : M Locals :=
  err <- gets (fun m => ErrorCode (project m)) ;;
  if negb (err =? 0)%Z then ret (mkLocals 1 0 false) else
  s <- gets setup ;;
  r <- beginStep routingStep ;;
  let '(currentDate, actionCount, stepFlowError) := r in
  between <- gets BetweenEvents ;;
  loc <-
    (* --- if not between routing events *)
    (if negb between then
       addInflows currentDate routingStep ;;
       inSteadyState <- steadyStateTest actionCount stepFlowError ;;
       stepCount <- findHydraulicState routingModel routingStep inSteadyState ;;
       (* --- route quality through the drainage network *)
       (if (0 <? Nobjects_POLLUT s)%nat && negb (IgnoreQuality s)
        then call (qualrout_execute routingStep) else ret tt) ;;
       (* --- remove evaporation, infiltration & outflows from system *)
       removeStorageLosses routingStep ;;
       removeConduitLosses ;;
       removeOutflows routingStep ;;
       ret (mkLocals stepCount actionCount inSteadyState)
     else ret (mkLocals 1 actionCount true)) ;;
  (* --- update continuity with new totals *)
  log (massbal_updateRoutingTotals (routingStep / 2)) ;;
  (* --- update summary statistics *)
  (if RptFlags_flowStats s && (0 <? Nobjects_LINK s)%nat then
     date <- gets (fun m => getDateTime X (NewRoutingTime m)) ;;
     log (stats_updateFlowStats routingStep date (stepCount loc) (inSteadyState loc))
   else ret tt) ;;
  ret loc.

End Routing.

(* ================================================================== *)
(** ** Vocabulary of the specification                                 *)
(* ================================================================== *)

(** The state a computation ends in, normally or by an exception. *)
Definition final {A} (r : Res A) : Sim :=
  match r with Ok _ m => m | Throw _ m => m end.

(** [c] relates every state to the state it ends in. *)
Definition keeps (R : Sim -> Sim -> Prop) {A} (c : M A) : Prop :=
  forall m, R m (final (c m)).

(** [f] has the same value in both states. *)
Definition unchanged {A} (f : Sim -> A) (m m' : Sim) : Prop := f m' = f m.

(** [Node[j] = nd]. *)
Definition put_Node (j : nat) (nd : TNode) (m : Sim) : Sim :=
  set_project (set_Node (<[j := nd]> (Node (project m))) (project m)) m.

(* ------------------------------------------------------------------ *)
(** *** Routing events                                                 *)
(* ------------------------------------------------------------------ *)

(** Among the first [n] events no event starts later than one that
    follows it. *)
Definition noInversion (n : nat) (evs : list TEvent) : Prop :=
  forall p q ep eq', p < q < n -> evs !! p = Some ep -> evs !! q = Some eq' ->
    gtb (ev_start ep) (ev_start eq') = false.

(** Among the first [n] events no event ends later than the next one
    starts. *)
Definition noOverlap (n : nat) (evs : list TEvent) : Prop :=
  forall i ei ei1, i + 1 < n -> evs !! i = Some ei -> evs !! (i + 1) = Some ei1 ->
    gtb (ev_end ei) (ev_start ei1) = false.

(** The same with [<=], which says more when no start is NaN. *)
Definition ascending (n : nat) (evs : list TEvent) : Prop :=
  forall p q ep eq', p < q < n -> evs !! p = Some ep -> evs !! q = Some eq' ->
    (ev_start ep <=? ev_start eq')%float = true.

Definition startsAreNumbers (evs : list TEvent) : Prop :=
  Forall (fun e => (ev_start e =? ev_start e)%float = true) evs.

(** Invariants of the exchange sort: the positions below [i] hold their
    final events, and position [i] holds the least start seen so far. *)
Definition sortedBelow (n i : nat) (evs : list TEvent) : Prop :=
  forall p q ep eq', p < i -> p < q < n -> evs !! p = Some ep -> evs !! q = Some eq' ->
    gtb (ev_start ep) (ev_start eq') = false.

Definition minUpTo (i j : nat) (evs : list TEvent) : Prop :=
  forall q ei eq', i < q < j -> evs !! i = Some ei -> evs !! q = Some eq' ->
    gtb (ev_start ei) (ev_start eq') = false.

Definition exchangeInv (m : Sim) (i j : nat) (m1 : Sim) : Prop :=
  exists evs, m1 = set_swmm_Event evs m /\
    length evs = length (swmm_Event m) /\
    evs ≡ₚ swmm_Event m /\
    sortedBelow (NumEvents (setup m)) i evs /\ minUpTo i j evs.

Definition clipInv (m : Sim) (starts : list float) (i : nat) (m1 : Sim) : Prop :=
  exists evs, m1 = set_swmm_Event evs m /\
    length evs = length (swmm_Event m) /\
    ev_start <$> evs = starts /\
    forall k ek ek1, k < i -> k + 1 < NumEvents (setup m) ->
      evs !! k = Some ek -> evs !! (k + 1) = Some ek1 ->
      gtb (ev_end ek) (ev_start ek1) = false.


(* ------------------------------------------------------------------ *)
(** *** External and dry weather inflows                               *)
(* ------------------------------------------------------------------ *)



(** A chain holds a flow record (param < 0). *)
Definition hasDwfFlowRecord (nd : TNode) : bool :=
  existsb (fun i => (dwf_param i <? 0)%Z) (dwfInflow nd).

(** From [m] to [m'] only zero flows were added and reported, and no
    pollutant load was. *)
Definition dwfNothingDelivered (m m' : Sim) : Prop :=
  exists t a, trace m' = trace m ++ t /\ latAdds m' = latAdds m ++ a /\
    Forall (fun c => c = massbal_addInflowFlow DRY_WEATHER_INFLOW 0) t /\
    Forall (fun ja => snd ja = 0%float) a.

(* ------------------------------------------------------------------ *)
(** *** Conservation of the aggregation                                *)
(* ------------------------------------------------------------------ *)

(** The flows reported by [massbal_addInflowFlow], in order. *)
Definition inflowFlows (t : list Call) : list float :=
  omap (fun c => match c with massbal_addInflowFlow _ q => Some q | _ => None end) t.




(* ------------------------------------------------------------------ *)
(** *** Steady state                                                   *)
(* ------------------------------------------------------------------ *)


Definition isFlowroutExecute (c : Call) : bool :=
  match c with flowrout_execute _ _ _ => true | _ => false end.

(** From [m] to [m'] the flow routing solver was not invoked. *)
Definition noFlowrout (m m' : Sim) : Prop :=
  exists t, trace m' = trace m ++ t /\ existsb isFlowroutExecute t = false.

(* ------------------------------------------------------------------ *)
(** *** Outflows                                                       *)
(* ------------------------------------------------------------------ *)

(** The calls of lines 827-839 for a node with system outflow [q] and
    quality [quals]. *)
Definition systemOutflowCalls (npollut : nat) (q : float) (quals : list float) : list Call :=
  if gtb q 0 then
    massbal_addOutflowFlow q None ::
    map (fun p => massbal_addOutflowQual p (q * array_get quals p) None) (seq 0 npollut)
  else [massbal_addInflowFlow EXTERNAL_INFLOW (- q)].

(** The calls of lines 841-851. *)
Definition lateralOutflowCalls (npollut : nat) (nd : TNode) : list Call :=
  if (newLatFlow nd <? 0)%float then
    map (fun p => massbal_addOutflowQual p (- newLatFlow nd * array_get (newQual nd) p)
                                         (Some false))
        (seq 0 npollut)
  else [].

Definition isOutflowFlow (c : Call) : bool :=
  match c with massbal_addOutflowFlow _ _ => true | _ => false end.

(** The calls [removeOutflows] makes for node [i]. *)
Definition removeOutflows_calls (X : Collab) (m : Sim) (i : nat) : list Call :=
  match Node (project m) !! i with
  | Some nd =>
      systemOutflowCalls (Nobjects_POLLUT (setup m))
        (node_getSystemOutflow X i (Node (project m))) (newQual nd)
      ++ lateralOutflowCalls (Nobjects_POLLUT (setup m)) nd
  | None => []
  end.

(** What [accumulateRouted] leaves alone. *)
Definition routedInv (m0 m1 : Sim) : Prop :=
  setup m1 = setup m0 /\ Node (project m1) = Node (project m0) /\
  trace m1 = trace m0 /\ length (Outfall (project m1)) = length (Outfall (project m0)).

(** Every node the loop visits exists, and so does the outfall record
    of every outfall node. *)
Definition outflowsWellFormed (m : Sim) : Prop :=
  Nobjects_NODE (setup m) <= length (Node (project m)) /\
  forall i nd, Node (project m) !! i = Some nd -> node_type nd = OUTFALL ->
    node_subIndex nd < length (Outfall (project m)).

(* ================================================================== *)
(** ** Example networks                                                *)
(* ================================================================== *)

(** Collaborators that leave the project alone: dates are days since
    the start, the solver accepts the requested step, a forcing lookup
    gives the record's own value or zero, the system outflow of an
    outfall is its inflow. *)
Definition quiet : Collab := {|
  effect := fun _ m => project m;
  treatmnt_open_value := fun _ => true;
  toposort_sortLinks_value := fun m => map Z.of_nat (seq 0 (Nobjects_LINK (setup m)));
  node_getLosses_value := fun _ _ _ => 0%float;
  flowrout_execute_value := fun _ => 1%Z;
  getDateTime := fun t => (t / 86400000)%float;
  datetime_monthOfYear := fun _ => 1%Z;
  datetime_dayOfWeek := fun _ => 1%Z;
  datetime_hourOfDay := fun _ => 0%Z;
  flowrout_getRoutingStep := fun _ fixedStep _ => fixedStep;
  massbal_getStepFlowError := fun _ => 0%float;
  inflow_getExtInflow := fun i _ => ext_baseline i;
  subcatch_getWtdOutflow := fun _ _ => 0%float;
  surfqual_getWtdWashoff := fun _ _ _ => 0%float;
  rdii_getNumRdiiFlows := fun _ => 0;
  iface_getNumIfaceNodes := fun _ => 0;
  iface_getIfaceNode := fun _ => (-1)%Z;
  iface_getIfaceFlow := fun _ => 0%float;
  iface_getIfaceQual := fun _ _ => 0%float;
  node_getSystemOutflow := fun i nodes =>
    match nodes !! i with
    | Some nd => match node_type nd with OUTFALL => inflow nd | _ => 0%float end
    | None => 0%float
    end
|}.

Definition exampleSetup (nnode nlink npollut nevents : nat) (skip : bool) : Setup :=
  mkSetup nnode nlink npollut 0 nevents 0 0 skip false 0.01 0.05 0 true
          NO_FILE NO_FILE 0.00001 0.000001 86400.

Definition exampleProject (nodes : list TNode) (links : list TLink) : Project :=
  mkProject 0 nodes links [] [mkPollut 0 0 0] [] [mkConduit 1 0 0]
            [mkOutfall (-1) 0 [0%float]].

(** A simulation at time zero; runoff and reporting are due after one
    day. *)
Definition exampleSim (s : Setup) (p : Project) (events : list TEvent) : Sim :=
  mkSim s p events None 0 (0 <? NumEvents s)%nat 0 0 0 0 86400000 86400000 [] [].

Definition openLink : TLink := mkLink CONDUIT 0 1 1 0.



(** A junction fed by a constant external inflow of 2. *)
Definition fedNode : TNode :=
  mkNode JUNCTION 0 1 0 0 0 0 0 0 [] [mkExtInflow 0 FLOW_INFLOW 2] [].

(** The junction and one link, steady periods skipped. *)
Definition steadySim : Sim :=
  exampleSim (exampleSetup 1 1 0 0 true) (exampleProject [fedNode] [openLink]) [].



(** The events [0,10) and [5,15). *)
Definition overlapSim : Sim :=
  exampleSim (exampleSetup 0 0 0 2 false) (exampleProject [] [])
             [mkEvent 0 10; mkEvent 5 15].

(** A node whose dry weather chain holds a pollutant record only. *)
Definition dwfPollutantOnlyNode : TNode :=
  mkNode JUNCTION 0 1 0 0 0 0 0 0 [0%float] [] [mkDwfInflow 0 5].

Definition dwfSim : Sim :=
  exampleSim (exampleSetup 1 0 1 0 false) (exampleProject [dwfPollutantOnlyNode] []) [].

(** A node with a dry weather flow record. *)
Definition dwfFlowNode : TNode :=
  mkNode JUNCTION 0 1 0 0 0 0 0 0 [0%float] [] [mkDwfInflow (-1) 5].

Definition dwfFlowSim : Sim :=
  exampleSim (exampleSetup 1 0 1 0 false) (exampleProject [dwfFlowNode] []) [].

(** The error latch is set. *)
Definition latchedSim : Sim :=
  exampleSim (exampleSetup 1 1 0 0 false)
             (mkProject 1 [fedNode] [openLink] [] [] [] [] []) [].

(** An outfall that discharges 4, an outfall that draws 3 back in, and
    a junction that withdraws 1 laterally; one pollutant. *)
Definition outflowNodes : list TNode :=
  [ mkNode OUTFALL 0 1 0 0 0 0 4 0 [2%float] [] [];
    mkNode OUTFALL 0 1 0 0 0 0 (-3) 0 [2%float] [] [];
    mkNode JUNCTION 0 1 0 (-1) 0 0 0 0 [5%float] [] [] ].

Definition outflowSim : Sim :=
  exampleSim (exampleSetup 3 0 1 0 false) (exampleProject outflowNodes []) [].

(** [steadySim] after [routing_open] and one step of 60 seconds. *)
Definition steadySim1 : Sim :=
  final ((routing_open quiet ;; routing_execute quiet 0 60) steadySim).

(** The second step of [steadySim]: after [beginStep], and after the
    aggregation of the inflows. *)
Definition steadyBegin : Sim := final (beginStep quiet 60 steadySim1).

Definition steadyInflows : Sim :=
  final (addInflows quiet (getDateTime quiet (NewRoutingTime steadySim1)) 60 steadyBegin).


(* ================================================================== *)
(** ** Facts about binary64 comparisons and division                   *)
(* ================================================================== *)

Module FloatFacts.
#[local] Open Scope float_scope.

Lemma SFltb_irrefl (x : spec_float) : SFltb x x = false.
Proof.
  unfold SFltb, SFcompare.
  destruct x as [s|s| |s m e]; try destruct s; try reflexivity;
    rewrite Z.compare_refl, Pos.compare_cont_refl; reflexivity.
Qed.

Lemma SFltb_trans (x y z : spec_float) :
  SFltb x y = true -> SFltb y z = true -> SFltb x z = true.
Proof.
  unfold SFltb, SFcompare.
  destruct x as [sx|sx| |sx mx ex], y as [sy|sy| |sy my ey], z as [sz|sz| |sz mz ez];
    try destruct sx; try destruct sy; try destruct sz;
    try discriminate; try reflexivity; intros Hxy Hyz;
    change (Pos.compare_cont Eq) with Pos.compare in *;
    repeat match goal with
    | H : context [(?a ?= ?b)%Z] |- _ => destruct (Z.compare_spec a b)
    | H : context [(?a ?= ?b)%positive] |- _ => destruct (Pos.compare_spec a b)
    | |- context [(?a ?= ?b)%Z] => destruct (Z.compare_spec a b)
    | |- context [(?a ?= ?b)%positive] => destruct (Pos.compare_spec a b)
    end; simpl in *; try discriminate; try reflexivity; try lia.
Qed.

Lemma SFleb_of_not_ltb (x y : spec_float) :
  SFeqb x x = true -> SFeqb y y = true -> SFltb y x = false -> SFleb x y = true.
Proof.
  unfold SFeqb, SFltb, SFleb, SFcompare.
  destruct x as [sx|sx| |sx mx ex], y as [sy|sy| |sy my ey];
    try destruct sx; try destruct sy; try discriminate; try reflexivity;
    intros _ _;
    change (Pos.compare_cont Eq) with Pos.compare in *;
    rewrite ?(Z.compare_antisym ex ey), ?(Pos.compare_antisym mx my);
    destruct (ex ?= ey)%Z; simpl; try discriminate; try reflexivity;
    destruct (mx ?= my)%positive; simpl; try discriminate; try reflexivity.
Qed.

(** [x < x] is false, also for NaN. *)
Lemma ltb_irrefl (x : float) : (x <? x) = false.
Proof. rewrite FloatAxioms.ltb_spec. apply SFltb_irrefl. Qed.

Lemma ltb_trans (x y z : float) :
  (x <? y) = true -> (y <? z) = true -> (x <? z) = true.
Proof. rewrite !FloatAxioms.ltb_spec. apply SFltb_trans. Qed.

Lemma ltb_asym (x y : float) : (x <? y) = true -> (y <? x) = false.
Proof.
  intros H. destruct (y <? x) eqn:E; [|reflexivity].
  pose proof (ltb_trans _ _ _ H E) as T. rewrite ltb_irrefl in T. discriminate.
Qed.

(** Among numbers, [not (y < x)] is [x <= y]. *)
Lemma leb_of_not_ltb (x y : float) :
  (x =? x) = true -> (y =? y) = true -> (y <? x) = false -> (x <=? y) = true.
Proof.
  rewrite !FloatAxioms.eqb_spec, FloatAxioms.ltb_spec, FloatAxioms.leb_spec.
  apply SFleb_of_not_ltb.
Qed.





End FloatFacts.
Import FloatFacts.

(* ================================================================== *)
(** ** Running the monad                                               *)
(* ================================================================== *)

(** A loop whose body keeps an invariant and raises nothing. *)
Lemma for_loop_total (I : nat -> Sim -> Prop) (body : nat -> M unit) (n : nat) :
  forall lo m,
    I lo m ->
    (forall j m1, lo <= j < lo + n -> I j m1 ->
       exists m2, body j m1 = Ok tt m2 /\ I (S j) m2) ->
    exists m', for_loop lo n body m = Ok tt m' /\ I (lo + n) m'.
Proof.
  induction n as [|n IH]; intros lo m HI Hbody; simpl.
  - exists m. rewrite Nat.add_0_r. split; [reflexivity|assumption].
  - destruct (Hbody lo m ltac:(lia) HI) as (m2 & E & HI2).
    destruct (IH (S lo) m2 HI2) as (m' & E' & HI').
    { intros j m1 Hj. apply Hbody. lia. }
    exists m'. unfold bind. rewrite E. split; [exact E'|].
    replace (lo + S n) with (S lo + n) by lia. exact HI'.
Qed.

Lemma bind_Ok_inv {A B} (c : M A) (f : A -> M B) m b m' :
  bind c f m = Ok b m' -> exists a m1, c m = Ok a m1 /\ f a m1 = Ok b m'.
Proof.
  unfold bind. destruct (c m) as [a m1|e m1]; [|discriminate]. intros E. by exists a, m1.
Qed.

Lemma set_trace_id m : set_trace (trace m) m = m.
Proof. by destruct m. Qed.

Lemma run_Node_ j m nd : Node (project m) !! j = Some nd -> Node_ j m = Ok nd m.
Proof. intros H. unfold Node_, element. rewrite H. reflexivity. Qed.

Lemma run_Outfall_ k m o : Outfall (project m) !! k = Some o -> Outfall_ k m = Ok o m.
Proof. intros H. unfold Outfall_, element. rewrite H. reflexivity. Qed.

Lemma run_set_Node_at j f m nd :
  Node (project m) !! j = Some nd -> set_Node_at j f m = Ok tt (put_Node j (f nd) m).
Proof. intros H. unfold set_Node_at, bind. rewrite (run_Node_ _ _ _ H). reflexivity. Qed.

(** [Node[j].newLatFlow += q] adds [q] to the field and notes it. *)
Lemma run_addLatFlow j q m nd :
  Node (project m) !! j = Some nd ->
  addLatFlow j q m =
    Ok tt (set_latAdds (latAdds m ++ [(j, q)])
             (put_Node j (set_newLatFlow (newLatFlow nd + q) nd) m)).
Proof. intros H. unfold addLatFlow, bind. rewrite (run_set_Node_at _ _ _ _ H). reflexivity. Qed.


(** A loop that only reports about node [i]. *)
Lemma log_loop i (c : nat -> TNode -> Call) n : forall lo m nd,
  Node (project m) !! i = Some nd ->
  for_loop lo n (fun p => nd <- Node_ i ;; log (c p nd)) m
  = Ok tt (set_trace (trace m ++ map (fun p => c p nd) (seq lo n)) m).
Proof.
  induction n as [|n IH]; intros lo m nd H; simpl.
  - by rewrite app_nil_r, set_trace_id.
  - unfold bind at 1. unfold bind at 1. rewrite (run_Node_ _ _ _ H).
    unfold log at 1, modify at 1.
    rewrite (IH (S lo) _ nd) by exact H. simpl.
    by rewrite <- app_assoc.
Qed.

(* ------------------------------------------------------------------ *)
(** *** Relations every step of a computation keeps                    *)
(* ------------------------------------------------------------------ *)

Section Keeps.
Variable R : Sim -> Sim -> Prop.
Hypothesis R_refl : forall m, R m m.
Hypothesis R_trans : forall a b c, R a b -> R b c -> R a c.

Lemma keeps_ret {A} (a : A) : keeps R (ret a).
Proof. intros m. apply R_refl. Qed.

Lemma keeps_throw {A} e : keeps R (@throw A e).
Proof. intros m. apply R_refl. Qed.

Lemma keeps_gets {A} (f : Sim -> A) : keeps R (gets f).
Proof. intros m. apply R_refl. Qed.

Lemma keeps_get : keeps R get.
Proof. intros m. apply R_refl. Qed.

Lemma keeps_element {A} name (arr : Sim -> list A) j : keeps R (element name arr j).
Proof. intros m. unfold element. destruct (arr m !! j); apply R_refl. Qed.

Lemma keeps_modify (g : Sim -> Sim) : (forall m, R m (g m)) -> keeps R (modify g).
Proof. intros H m. apply H. Qed.

Lemma keeps_bind {A B} (c : M A) (f : A -> M B) :
  keeps R c -> (forall a, keeps R (f a)) -> keeps R (bind c f).
Proof.
  intros Hc Hf m. unfold bind. specialize (Hc m).
  destruct (c m) as [a m1|e m1]; simpl in *; [|exact Hc].
  eapply R_trans; [exact Hc|apply Hf].
Qed.

Lemma keeps_for_loop body n : (forall j, keeps R (body j)) ->
  forall lo, keeps R (for_loop lo n body).
Proof.
  intros Hb. induction n as [|n IH]; intros lo; simpl.
  - apply keeps_ret.
  - apply keeps_bind; [apply Hb|intros _; apply IH].
Qed.

Lemma keeps_for_fold {A} (body : nat -> A -> M A) n :
  (forall j a, keeps R (body j a)) ->
  forall lo a, keeps R (for_fold lo n body a).
Proof.
  intros Hb. induction n as [|n IH]; intros lo a; simpl.
  - apply keeps_ret.
  - apply keeps_bind; [apply Hb|intros a1; apply IH].
Qed.

Lemma keeps_for_each {A} (body : A -> M unit) l :
  (forall x, keeps R (body x)) -> keeps R (for_each l body).
Proof.
  intros Hb. induction l as [|x l IH]; simpl.
  - apply keeps_ret.
  - apply keeps_bind; [apply Hb|intros _; apply IH].
Qed.

Lemma keeps_dwfFlowInflow l : keeps R (dwfFlowInflow l).
Proof.
  induction l as [|i l IH]; simpl.
  - apply keeps_ret.
  - destruct (dwf_param i <? 0)%Z; [apply keeps_throw|exact IH].
Qed.

Lemma keeps_inflowHasChanged_from n : forall lo, keeps R (inflowHasChanged_from lo n).
Proof.
  induction n as [|n IH]; intros lo; simpl.
  - apply keeps_ret.
  - apply keeps_bind; [apply keeps_gets|intros s].
    apply keeps_bind; [apply keeps_element|intros nd].
    destruct (latFlowChanged s nd); [apply keeps_ret|].
    destruct (boundaryFlowChanged s nd); [apply keeps_ret|apply IH].
Qed.


Lemma bind_Ok_keeps {A B} (c : M A) (f : A -> M B) m b m' :
  keeps R c -> bind c f m = Ok b m' ->
  exists a m1, c m = Ok a m1 /\ R m m1 /\ f a m1 = Ok b m'.
Proof.
  intros Hc. unfold bind. specialize (Hc m).
  destruct (c m) as [a m1|e m1]; simpl in Hc; [|discriminate].
  intros E. by exists a, m1.
Qed.
End Keeps.

Lemma unchanged_refl {A} (f : Sim -> A) m : unchanged f m m.
Proof. reflexivity. Qed.

Lemma unchanged_trans {A} (f : Sim -> A) a b c :
  unchanged f a b -> unchanged f b c -> unchanged f a c.
Proof. unfold unchanged. congruence. Qed.

(** One step of a proof of [keeps R c] along the structure of [c]. *)
Ltac keeps_step Hr Ht :=
  lazymatch goal with
  | |- keeps _ (bind _ _) => apply (keeps_bind _ Ht); [|intros ?]
  | |- keeps _ (ret _) => apply (keeps_ret _ Hr)
  | |- keeps _ (throw _) => apply (keeps_throw _ Hr)
  | |- keeps _ (gets _) => apply (keeps_gets _ Hr)
  | |- keeps _ get => apply (keeps_get _ Hr)
  | |- keeps _ (element _ _ _) => apply (keeps_element _ Hr)
  | |- keeps _ (dwfFlowInflow _) => apply (keeps_dwfFlowInflow _ Hr)
  | |- keeps _ (inflowHasChanged_from _ _) => apply (keeps_inflowHasChanged_from _ Hr Ht)
  | |- keeps _ (for_loop _ _ _) => apply (keeps_for_loop _ Hr Ht); intros ?
  | |- keeps _ (for_fold _ _ _ _) => apply (keeps_for_fold _ Hr Ht); intros ? ?
  | |- keeps _ (for_each _ _) => apply (keeps_for_each _ Hr Ht); intros ?
  | |- keeps _ (if ?b then _ else _) => destruct b
  | |- keeps _ (match ?x with _ => _ end) => destruct x
  end.

(** The functions of routing.js down to the operations of the monad,
    [log] and [call]. *)
Ltac unfold_routing :=
  progress unfold set_Node_at, addLatFlow, addQual, Node_, Link_, Event_,
    Subcatch_, Outfall_, set_Outfall_at, inflow_getDwfInflow_inObj,
    addExternalInflows, addExternalInflows_node, addExternalQual,
    addDryWeatherInflows, addDryWeatherInflows_node, addWetWeatherInflows,
    addGroundwaterInflows, addLidDrainInflows, addRdiiInflows, addIfaceInflows,
    addInflows, removeStorageLosses, removeConduitLosses, removeOutflows,
    removeOutflows_node, accumulateRouted, reportSystemOutflow,
    reportLateralOutflow, changeLinkSettings, initLateralInflows,
    inflowHasChanged, checkEvents, beginStep.

(** [keeps (unchanged f) c] for a variable [f] that [c] does not
    assign. *)
Ltac frame f :=
  repeat first
    [ assumption
    | apply keeps_modify; intros ?; reflexivity
    | keeps_step (unchanged_refl f) (unchanged_trans f)
    | progress unfold log, call
    | unfold_routing ].

(* ================================================================== *)
(** ** The routing events are sorted and do not overlap                *)
(* ================================================================== *)

Section SortEvents.
Variable m : Sim.
Hypothesis Hlen : NumEvents (setup m) <= length (swmm_Event m).

Lemma exchangeEvents_ok i j m1 :
  i < j < NumEvents (setup m) -> exchangeInv m i j m1 ->
  exists m2, exchangeEvents i j m1 = Ok tt m2 /\ exchangeInv m i (S j) m2.
Proof.
  intros Hij (evs & -> & Hl & Hp & Hs & Hm).
  destruct (lookup_lt_is_Some_2 evs i ltac:(lia)) as [ei Ei].
  destruct (lookup_lt_is_Some_2 evs j ltac:(lia)) as [ej Ej].
  unfold exchangeEvents, bind, Event_, element; simpl.
  rewrite Ei; simpl. rewrite Ej; simpl.
  destruct (gtb (ev_start ei) (ev_start ej)) eqn:G.
  - eexists; split; [reflexivity|].
    exists (<[i := ej]> (<[j := ei]> evs)); simpl.
    split; [reflexivity|]. split; [by rewrite !length_insert|].
    split; [rewrite <- Hp; apply Permutation_insert_swap; assumption|].
    assert (Hget : forall k, k <> i -> k <> j ->
              (<[i := ej]> (<[j := ei]> evs)) !! k = evs !! k).
    { intros k ? ?. rewrite !list_lookup_insert_ne by lia. reflexivity. }
    assert (Hi : (<[i := ej]> (<[j := ei]> evs)) !! i = Some ej).
    { apply list_lookup_insert_eq. rewrite length_insert. lia. }
    assert (Hj : (<[i := ej]> (<[j := ei]> evs)) !! j = Some ei).
    { rewrite list_lookup_insert_ne by lia. apply list_lookup_insert_eq. lia. }
    split.
    + intros p q ep eq' Hp1 Hq E1 E2.
      rewrite Hget in E1 by lia.
      destruct (decide (q = i)) as [->|].
      { rewrite Hi in E2. injection E2 as <-. eapply (Hs p j); eauto; lia. }
      destruct (decide (q = j)) as [->|].
      * rewrite Hj in E2. injection E2 as <-. eapply (Hs p i); eauto; lia.
      * rewrite Hget in E2 by lia. eapply (Hs p q); eauto.
    + intros q ei' eq' Hq E1 E2. rewrite Hi in E1. injection E1 as <-.
      destruct (decide (q = j)) as [->|].
      * rewrite Hj in E2. injection E2 as <-. unfold gtb in *.
        apply ltb_asym. exact G.
      * rewrite Hget in E2 by lia.
        pose proof (Hm q ei eq' ltac:(lia) Ei E2) as Hle. unfold gtb in *.
        destruct (ev_start eq' <? ev_start ej)%float eqn:E; [|reflexivity].
        rewrite (ltb_trans _ _ _ E G) in Hle. discriminate.
  - eexists; split; [reflexivity|].
    exists evs. split; [reflexivity|]. repeat split; try assumption.
    intros q ei' eq' Hq E1 E2.
    destruct (decide (q = j)) as [->|].
    + rewrite Ei in E1. rewrite Ej in E2. injection E1 as <-. injection E2 as <-. exact G.
    + eapply (Hm q); eauto. lia.
Qed.

Lemma clipEvent_ok starts i m1 :
  i + 1 < NumEvents (setup m) -> clipInv m starts i m1 ->
  exists m2, clipEvent i m1 = Ok tt m2 /\ clipInv m starts (S i) m2.
Proof.
  intros Hi (evs & -> & Hl & Hst & Hk).
  destruct (lookup_lt_is_Some_2 evs i ltac:(lia)) as [ei Ei].
  destruct (lookup_lt_is_Some_2 evs (i + 1) ltac:(lia)) as [ei1 Ei1].
  unfold clipEvent, bind, Event_, element; simpl.
  rewrite Ei; simpl. rewrite Ei1; simpl.
  destruct (gtb (ev_end ei) (ev_start ei1)) eqn:G.
  - eexists; split; [reflexivity|].
    exists (<[i := set_ev_end (ev_start ei1) ei]> evs); simpl.
    split; [reflexivity|]. split; [by rewrite length_insert|].
    split.
    { rewrite list_fmap_insert. simpl. rewrite <- Hst.
      apply list_insert_id. rewrite list_lookup_fmap, Ei. reflexivity. }
    intros k ek ek1 Hki Hkn E1 E2.
    destruct (decide (k = i)) as [->|].
    + rewrite list_lookup_insert_ne in E2 by lia.
      rewrite list_lookup_insert_eq in E1 by lia. injection E1 as <-.
      rewrite Ei1 in E2. injection E2 as <-. simpl. unfold gtb. apply ltb_irrefl.
    + rewrite list_lookup_insert_ne in E1 by lia.
      destruct (decide (k + 1 = i)) as [<-|].
      * rewrite list_lookup_insert_eq in E2 by lia. injection E2 as <-. simpl.
        eapply Hk; eauto. lia.
      * rewrite list_lookup_insert_ne in E2 by lia. eapply Hk; eauto. lia.
  - eexists; split; [reflexivity|].
    exists evs. repeat split; try assumption.
    intros k ek ek1 Hki Hkn E1 E2.
    destruct (decide (k = i)) as [->|].
    + rewrite Ei in E1. rewrite Ei1 in E2. injection E1 as <-. injection E2 as <-. exact G.
    + eapply Hk; eauto. lia.
Qed.

Lemma sortEvents_total :
  exists evs, sortEvents m = Ok tt (set_swmm_Event evs m) /\
    length evs = length (swmm_Event m) /\
    ev_start <$> evs ≡ₚ ev_start <$> swmm_Event m /\
    noInversion (NumEvents (setup m)) evs /\ noOverlap (NumEvents (setup m)) evs.
Proof.
  unfold sortEvents, bind at 1, gets.
  set (n := NumEvents (setup m)).
  (* exchange sort *)
  destruct (for_loop_total (fun i m1 => exchangeInv m i i m1)
              (fun i => for_loop (i + 1) (n - (i + 1)) (exchangeEvents i)) (n - 1) 0 m)
    as (m1 & E1 & evs1 & -> & Hl1 & Hp1 & Hs1 & _).
  { exists (swmm_Event m). split; [by destruct m|]. repeat split; try done.
    - intros p q ep eq' Hp; lia.
    - intros q ei eq' Hq; lia. }
  { intros i m1 Hi (evs & -> & Hl & Hp & Hs & _).
    destruct (for_loop_total (fun j m1 => exchangeInv m i j m1) (exchangeEvents i)
                (n - (i + 1)) (i + 1) (set_swmm_Event evs m))
      as (m2 & E2 & evs2 & -> & Hl2 & Hp2 & Hs2 & Hm2).
    { exists evs. repeat split; try done. intros q ei eq' Hq; lia. }
    { intros j m1 Hj Hinv. apply exchangeEvents_ok; [unfold n in *; lia|assumption]. }
    exists (set_swmm_Event evs2 m). split; [exact E2|].
    exists evs2. repeat split; try done.
    - intros p q ep eq' Hp' Hq Ep Eq.
      destruct (decide (p = i)) as [->|].
      + eapply (Hm2 q); eauto. unfold n in *. lia.
      + eapply (Hs2 p q); eauto. lia.
    - intros q ei eq' Hq; lia. }
  unfold bind. rewrite E1.
  (* overlaps *)
  destruct (for_loop_total (clipInv m (ev_start <$> evs1)) clipEvent (n - 1) 0
              (set_swmm_Event evs1 m))
    as (m2 & E2 & evs2 & -> & Hl2 & Hst2 & Hk2).
  { exists evs1. repeat split; try done. intros; lia. }
  { intros i m1 Hi Hinv. apply clipEvent_ok; [unfold n in *; lia|assumption]. }
  exists evs2. split; [exact E2|]. split; [congruence|].
  split; [rewrite Hst2; by apply fmap_Permutation|].
  split.
  - intros p q ep eq' Hpq Ep Eq.
    assert (Sp : (ev_start <$> evs1) !! p = Some (ev_start ep))
      by (rewrite <- Hst2, list_lookup_fmap, Ep; reflexivity).
    assert (Sq : (ev_start <$> evs1) !! q = Some (ev_start eq'))
      by (rewrite <- Hst2, list_lookup_fmap, Eq; reflexivity).
    rewrite list_lookup_fmap in Sp, Sq.
    destruct (evs1 !! p) as [ep1|] eqn:Ep1; [|discriminate].
    destruct (evs1 !! q) as [eq1|] eqn:Eq1; [|discriminate].
    simpl in Sp, Sq. injection Sp as <-. injection Sq as <-.
    eapply (Hs1 p q); eauto; unfold n in *; lia.
  - intros i ei ei1 Hi Ei Ei1. eapply (Hk2 i); eauto. lia.
Qed.
End SortEvents.

Lemma sortEvents_example (m : Sim) :
  NumEvents (setup m) = 2 ->
  swmm_Event m = [mkEvent 0 10; mkEvent 5 15] ->
  sortEvents m = Ok tt (set_swmm_Event [mkEvent 0 5; mkEvent 5 15] m).
Proof.
  intros Hn Hev. unfold sortEvents, bind at 1, gets. rewrite Hn. simpl.
  unfold bind, exchangeEvents, clipEvent, bind, Event_, element, modify, ret, gtb.
  simpl. repeat (rewrite Hev; cbn). reflexivity.
Qed.

Lemma noInversion_ascending n (evs : list TEvent) :
  startsAreNumbers evs -> noInversion n evs -> ascending n evs.
Proof.
  intros Hnum Hinv p q ep eq' Hpq Ep Eq.
  unfold startsAreNumbers in Hnum. rewrite Forall_lookup in Hnum.
  apply leb_of_not_ltb; [eapply (Hnum p); eauto|eapply (Hnum q); eauto|].
  exact (Hinv p q ep eq' Hpq Ep Eq).
Qed.

(** C6.  When the event array holds the [NumEvents] events, sortEvents
    returns, and among the events it leaves no event starts later than
    an event that follows it (their starts are ascending as soon as
    none is NaN), no event ends later than the next one starts, and the
    starts are those of the input.  The events [0,10) and [5,15)
    become [0,5) and [5,15). *)
Theorem sortEvents_sorted (m : Sim) :
  NumEvents (setup m) <= length (swmm_Event m) ->
  exists evs, sortEvents m = Ok tt (set_swmm_Event evs m) /\
    length evs = length (swmm_Event m) /\
    ev_start <$> evs ≡ₚ ev_start <$> swmm_Event m /\
    noInversion (NumEvents (setup m)) evs /\
    noOverlap (NumEvents (setup m)) evs /\
    (startsAreNumbers (swmm_Event m) -> ascending (NumEvents (setup m)) evs) /\
    (NumEvents (setup m) = 2 -> swmm_Event m = [mkEvent 0 10; mkEvent 5 15] ->
     evs = [mkEvent 0 5; mkEvent 5 15]).
Proof.
  intros Hlen. destruct (sortEvents_total m Hlen) as (evs & E & Hl & Hp & Hi & Ho).
  exists evs. repeat (split; [assumption|]). split.
  - intros Hnum. apply noInversion_ascending; [|exact Hi].
    unfold startsAreNumbers in *. rewrite Forall_forall in *.
    intros e He. 
    assert (Hin : ev_start e ∈ ev_start <$> swmm_Event m).
    { rewrite <- Hp. apply list_elem_of_fmap. by exists e. }
    apply list_elem_of_fmap in Hin as (e0 & -> & He0). by apply Hnum.
  - intros Hn Hev. rewrite (sortEvents_example m Hn Hev) in E.
    injection E as E. symmetry. exact E.
Qed.

Lemma sortEvents_sorted_witness :
  exists evs, sortEvents overlapSim = Ok tt (set_swmm_Event evs overlapSim) /\
    evs = [mkEvent 0 5; mkEvent 5 15] /\
    ascending 2 evs /\ noOverlap 2 evs.
Proof.
  assert (H : NumEvents (setup overlapSim) <= length (swmm_Event overlapSim))
    by (vm_compute; lia).
  destruct (sortEvents_sorted overlapSim H) as (evs & E & _ & _ & _ & Ho & Ha & Hex).
  exists evs. split; [exact E|]. split; [apply Hex; reflexivity|].
  split; [apply Ha|exact Ho].
  repeat constructor.
Defined.

(* ================================================================== *)
(** ** External inflows and the reverse flow of outfalls               *)
(* ================================================================== *)

Section ExternalInflows.
Variable X : Collab.
Variable d : DateTime.




End ExternalInflows.



(* ================================================================== *)
(** ** Outflows                                                        *)
(* ================================================================== *)

Lemma routedInv_trans a b c : routedInv a b -> routedInv b c -> routedInv a c.
Proof. intros (?&?&?&?) (?&?&?&?). repeat split; congruence. Qed.

Lemma set_Outfall_at_ok k f m :
  k < length (Outfall (project m)) ->
  exists m', set_Outfall_at k f m = Ok tt m' /\ routedInv m m'.
Proof.
  intros Hk. destruct (lookup_lt_is_Some_2 _ _ Hk) as [o Eo].
  unfold set_Outfall_at, bind. rewrite (run_Outfall_ _ _ _ Eo).
  eexists. split; [reflexivity|]. repeat split; simpl. by rewrite length_insert.
Qed.

(** The routed volumes are kept apart from the ledger. *)
Lemma accumulateRouted_ok tStep i m nd :
  Node (project m) !! i = Some nd ->
  (node_type nd = OUTFALL -> node_subIndex nd < length (Outfall (project m))) ->
  exists m', accumulateRouted tStep i m = Ok tt m' /\ routedInv m m'.
Proof.
  intros H Hk. unfold accumulateRouted, bind at 1, gets at 1.
  unfold bind at 1. rewrite (run_Node_ _ _ _ H).
  destruct (bool_decide (node_type nd = OUTFALL)) eqn:Ht; simpl;
    [|exists m; split; [reflexivity|by repeat split]].
  destruct (gtb (inflow nd) 0); [|exists m; split; [reflexivity|by repeat split]].
  apply bool_decide_eq_true in Ht. specialize (Hk Ht).
  destruct (lookup_lt_is_Some_2 _ _ Hk) as [o Eo].
  unfold bind at 1. rewrite (run_Outfall_ _ _ _ Eo).
  destruct (0 <=? routeTo o)%Z; [|exists m; split; [reflexivity|by repeat split]].
  unfold bind at 1.
  destruct (set_Outfall_at_ok (node_subIndex nd)
              (fun o => set_vRouted (vRouted o + inflow nd * tStep) o) m Hk)
    as (m1 & E1 & I1).
  rewrite E1.
  destruct (for_loop_total (fun _ m2 => routedInv m m2)
     (fun p => nd1 <- Node_ i ;;
        set_Outfall_at (node_subIndex nd) (fun o =>
          set_wRouted (array_add p (array_get (newQual nd1) p * (inflow nd * tStep))
                                 (wRouted o)) o))
     (Nobjects_POLLUT (setup m)) 0 m1 I1) as (m2 & E2 & I2).
  { intros p m2 _ I2. unfold bind.
    destruct I2 as (HS & HN & HT & HL).
    rewrite (run_Node_ i m2 nd) by congruence.
    destruct (set_Outfall_at_ok (node_subIndex nd)
      (fun o => set_wRouted (array_add p (array_get (newQual nd) p * (inflow nd * tStep))
                                 (wRouted o)) o) m2 ltac:(lia)) as (m3 & E3 & I3).
    exists m3. split; [exact E3|].
    eapply routedInv_trans; [|exact I3]. by repeat split. }
  exists m2. split; [exact E2|exact I2].
Qed.

Lemma reportLateralOutflow_run i m nd :
  Node (project m) !! i = Some nd ->
  reportLateralOutflow i m =
    Ok tt (set_trace (trace m ++ lateralOutflowCalls (Nobjects_POLLUT (setup m)) nd) m).
Proof.
  intros H. unfold reportLateralOutflow, bind at 1, gets at 1.
  unfold bind at 1. rewrite (run_Node_ _ _ _ H). unfold lateralOutflowCalls.
  destruct (newLatFlow nd <? 0)%float.
  - by rewrite (log_loop i (fun p nd1 => massbal_addOutflowQual p _ (Some false)) _ _ _ nd).
  - by rewrite app_nil_r, set_trace_id.
Qed.

Section Outflows.
Variable X : Collab.

Lemma reportSystemOutflow_run i m nd :
  Node (project m) !! i = Some nd ->
  reportSystemOutflow X i m =
    Ok tt (set_trace (trace m ++
      systemOutflowCalls (Nobjects_POLLUT (setup m))
        (node_getSystemOutflow X i (Node (project m))) (newQual nd)) m).
Proof.
  intros H. unfold reportSystemOutflow, bind at 1, gets at 1.
  unfold bind at 1, gets at 1. unfold systemOutflowCalls.
  destruct (gtb _ 0); [|reflexivity].
  unfold bind at 1, log at 1, modify at 1.
  rewrite (log_loop i (fun p nd => massbal_addOutflowQual p _ None) _ _ _ nd) by exact H.
  simpl. by rewrite <- app_assoc.
Qed.

(** The calls of removeOutflows are those of its nodes, in order. *)
Lemma removeOutflows_total tStep m :
  outflowsWellFormed m ->
  exists m', removeOutflows X tStep m = Ok tt m' /\
    trace m' = trace m ++
      concat (map (removeOutflows_calls X m) (seq 0 (Nobjects_NODE (setup m)))).
Proof.
  intros [Hlen Hout]. unfold removeOutflows, bind, gets.
  destruct (for_loop_total
    (fun i m1 =>
       setup m1 = setup m /\ Node (project m1) = Node (project m) /\
       length (Outfall (project m1)) = length (Outfall (project m)) /\
       trace m1 = trace m ++ concat (map (removeOutflows_calls X m) (seq 0 i)))
    (removeOutflows_node X tStep) (Nobjects_NODE (setup m)) 0 m)
    as (m' & E & HS & HN & HL & HT).
  - repeat split; simpl. by rewrite app_nil_r.
  - intros i m1 Hi (HS & HN & HL & HT).
    destruct (lookup_lt_is_Some_2 (Node (project m)) i ltac:(lia)) as [nd E0].
    assert (E1 : Node (project m1) !! i = Some nd) by congruence.
    destruct (accumulateRouted_ok tStep i m1 nd E1) as (m2 & E2 & HS2 & HN2 & HT2 & HL2).
    { intros Ht. rewrite HL. eapply Hout; eauto. }
    unfold removeOutflows_node, bind at 1. rewrite E2.
    assert (E3 : Node (project m2) !! i = Some nd) by congruence.
    unfold bind. rewrite (reportSystemOutflow_run i m2 nd E3).
    rewrite (reportLateralOutflow_run i _ nd) by exact E3.
    eexists. split; [reflexivity|].
    split; [simpl; congruence|]. split; [simpl; congruence|].
    split; [simpl; congruence|].
    rewrite seq_S, map_app, concat_app.
    cbn [trace set_trace setup project map concat Nat.add].
    unfold removeOutflows_calls at 2. rewrite E0, HT2, HT, HN2, HN, HS2, HS.
    by rewrite app_nil_r, <- !app_assoc.
  - exists m'. split; [exact E|exact HT].
Qed.

(** C8.  On a well formed project removeOutflows returns and its calls
    are those of its nodes, in order.  For a node whose system outflow
    [q] is positive they are [massbal_addOutflowFlow q] and, for every
    pollutant [p], [massbal_addOutflowQual] of [q * newQual[p]]; when
    [q] is negative their place is taken by the single call
    [massbal_addInflowFlow(EXTERNAL_INFLOW, -q)], and no call of the
    node is a [massbal_addOutflowFlow].  (The calls that follow are
    those for a negative lateral inflow.) *)
Theorem removeOutflows_reports (tStep : float) (m : Sim) :
  outflowsWellFormed m ->
  (exists m', removeOutflows X tStep m = Ok tt m' /\
     trace m' = trace m ++
       concat (map (removeOutflows_calls X m) (seq 0 (Nobjects_NODE (setup m))))) /\
  forall i nd, i < Nobjects_NODE (setup m) -> Node (project m) !! i = Some nd ->
    let q := node_getSystemOutflow X i (Node (project m)) in
    let npollut := Nobjects_POLLUT (setup m) in
    (gtb q 0 = true ->
       removeOutflows_calls X m i =
         massbal_addOutflowFlow q None ::
         map (fun p => massbal_addOutflowQual p (q * array_get (newQual nd) p) None)
             (seq 0 npollut)
         ++ lateralOutflowCalls npollut nd) /\
    ((q <? 0)%float = true ->
       removeOutflows_calls X m i =
         massbal_addInflowFlow EXTERNAL_INFLOW (- q) :: lateralOutflowCalls npollut nd /\
       existsb isOutflowFlow (removeOutflows_calls X m i) = false).
Proof.
  intros Hwf. split; [by apply removeOutflows_total|].
  intros i nd Hi E q npollut. unfold removeOutflows_calls. rewrite E.
  fold q npollut. unfold systemOutflowCalls. split.
  - intros ->. reflexivity.
  - intros Hneg. assert (G : gtb q 0 = false) by (unfold gtb; by apply ltb_asym).
    rewrite G. split; [reflexivity|]. simpl.
    unfold lateralOutflowCalls. destruct (newLatFlow nd <? 0)%float; [|reflexivity].
    induction (seq 0 npollut); simpl; auto.
Qed.
End Outflows.

Lemma outflowSim_wellFormed : outflowsWellFormed outflowSim.
Proof.
  split; [vm_compute; lia|]. intros i nd E _.
  destruct i as [|[|[|i]]]; vm_compute in E; try discriminate;
    injection E as <-; vm_compute; lia.
Qed.

Lemma removeOutflows_reports_witness :
  exists m', removeOutflows quiet 60 outflowSim = Ok tt m' /\
    trace m' =
      [ massbal_addOutflowFlow 4 None; massbal_addOutflowQual 0 8 None;
        massbal_addInflowFlow EXTERNAL_INFLOW 3;
        massbal_addInflowFlow EXTERNAL_INFLOW (-0);
        massbal_addOutflowQual 0 5 (Some false) ].
Proof.
  destruct (removeOutflows_reports quiet 60 outflowSim outflowSim_wellFormed)
    as [(m' & E & T) _].
  exists m'. split; [exact E|]. rewrite T. vm_compute. reflexivity.
Defined.

(* ================================================================== *)
(** ** The steady state detector                                       *)
(* ================================================================== *)



(** inflowHasChanged reads and changes nothing. *)
Lemma inflowHasChanged_pure m : final (inflowHasChanged m) = m.
Proof.
  assert (K : keeps (fun a b => b = a) inflowHasChanged).
  { unfold inflowHasChanged. apply keeps_bind; [congruence|by apply keeps_gets|].
    intros n. apply keeps_inflowHasChanged_from; congruence. }
  apply K.
Qed.



(* ================================================================== *)
(** ** Dry weather inflows                                             *)
(* ================================================================== *)

Lemma dwfFlowInflow_run l m :
  dwfFlowInflow l m =
    if existsb (fun i => (dwf_param i <? 0)%Z) l
    then Throw (ReferenceError "inObj") m else Ok 0%float m.
Proof.
  induction l as [|i l IH]; simpl; [reflexivity|].
  destruct (dwf_param i <? 0)%Z; simpl; [reflexivity|exact IH].
Qed.

Lemma zeroBelowTol_0 tol : zeroBelowTol tol 0 = 0%float.
Proof. unfold zeroBelowTol. by destruct (abs 0 <? tol)%float. Qed.

Lemma dwfNothingDelivered_refl m : dwfNothingDelivered m m.
Proof. exists [], []. by rewrite !app_nil_r. Qed.

Lemma dwfNothingDelivered_trans a b c :
  dwfNothingDelivered a b -> dwfNothingDelivered b c -> dwfNothingDelivered a c.
Proof.
  intros (t1 & a1 & T1 & A1 & F1 & G1) (t2 & a2 & T2 & A2 & F2 & G2).
  exists (t1 ++ t2), (a1 ++ a2). rewrite T2, T1, A2, A1, !app_assoc.
  split; [done|]. split; [done|]. split; by apply Forall_app.
Qed.

(** The three ways the body of the loop ends for a node. *)
Lemma addDryWeatherInflows_node_eq j m nd :
  Node (project m) !! j = Some nd ->
  addDryWeatherInflows_node j m =
    match dwfInflow nd with
    | [] => Ok tt m
    | _ =>
      if hasDwfFlowRecord nd then Throw (ReferenceError "inObj") m
      else
        let m1 := set_latAdds (latAdds m ++ [(j, 0%float)])
                    (put_Node j (set_newLatFlow (newLatFlow nd + 0) nd) m) in
        Ok tt (set_trace (trace m1 ++ [massbal_addInflowFlow DRY_WEATHER_INFLOW 0]) m1)
    end.
Proof.
  intros H. unfold addDryWeatherInflows_node, hasDwfFlowRecord, bind at 1.
  rewrite (run_Node_ _ _ _ H).
  destruct (dwfInflow nd) as [|i0 l0] eqn:El; [reflexivity|].
  unfold bind at 1, gets at 1. unfold bind at 1, gets at 1.
  unfold bind at 1. rewrite dwfFlowInflow_run.
  destruct (existsb _ (i0 :: l0)); [reflexivity|].
  rewrite zeroBelowTol_0.
  unfold bind at 1. rewrite (run_addLatFlow _ _ _ _ H).
  unfold bind at 1, log at 1, modify at 1.
  change (0 <=? 0)%float with true. reflexivity.
Qed.

Lemma addDryWeatherInflows_node_run j m nd :
  Node (project m) !! j = Some nd ->
  if hasDwfFlowRecord nd
  then addDryWeatherInflows_node j m = Throw (ReferenceError "inObj") m
  else exists m' nd', addDryWeatherInflows_node j m = Ok tt m' /\
         setup m' = setup m /\
         Node (project m') = <[j := nd']> (Node (project m)) /\
         dwfInflow nd' = dwfInflow nd /\
         dwfNothingDelivered m m'.
Proof.
  intros H. rewrite (addDryWeatherInflows_node_eq _ _ _ H).
  unfold hasDwfFlowRecord.
  destruct (dwfInflow nd) as [|i0 l0] eqn:El.
  - simpl. exists m, nd. split; [reflexivity|]. split; [reflexivity|].
    split; [symmetry; by apply list_insert_id|]. split; [exact El|].
    apply dwfNothingDelivered_refl.
  - destruct (existsb _ (i0 :: l0)); [reflexivity|].
    eexists _, _. split; [reflexivity|]. split; [reflexivity|].
    split; [reflexivity|]. split; [exact El|].
    exists [massbal_addInflowFlow DRY_WEATHER_INFLOW 0], [(j, 0%float)].
    simpl. repeat split; by repeat constructor.
Qed.

Lemma addDryWeatherInflows_loop n : forall lo m,
  lo + n <= length (Node (project m)) ->
  if existsb hasDwfFlowRecord (take n (drop lo (Node (project m))))
  then exists m', for_loop lo n addDryWeatherInflows_node m = Throw (ReferenceError "inObj") m'
  else exists m', for_loop lo n addDryWeatherInflows_node m = Ok tt m' /\
         dwfNothingDelivered m m'.
Proof.
  induction n as [|n IH]; intros lo m Hlen; simpl.
  - exists m. split; [reflexivity|apply dwfNothingDelivered_refl].
  - destruct (lookup_lt_is_Some_2 (Node (project m)) lo ltac:(lia)) as [nd E].
    rewrite (drop_S _ _ _ E). simpl.
    pose proof (addDryWeatherInflows_node_run lo m nd E) as Hn.
    unfold bind.
    destruct (hasDwfFlowRecord nd); simpl.
    + rewrite Hn. by eexists.
    + destruct Hn as (m1 & nd' & E1 & HS & HN & HD & Hdel). rewrite E1.
      specialize (IH (S lo) m1). rewrite HN, length_insert in IH.
      rewrite drop_insert_lt in IH by lia. specialize (IH ltac:(lia)).
      destruct (existsb _ _).
      * exact IH.
      * destruct IH as (m' & E' & Hdel'). exists m'. split; [exact E'|].
        eapply dwfNothingDelivered_trans; eauto.
Qed.

Section DryWeather.
Variable X : Collab.

(** C9, as amended.  When the node array holds the nodes:
    if the chain of some node holds a flow record (param < 0),
    addDryWeatherInflows ends with the ReferenceError of [inObj]; if no
    chain does, it returns, and all it has added to lateral inflows and
    reported are zero flows: no pollutant load is ever delivered. *)
Theorem addDryWeatherInflows_outcome (currentDate : DateTime) (m : Sim) :
  Nobjects_NODE (setup m) <= length (Node (project m)) ->
  let nodes := take (Nobjects_NODE (setup m)) (Node (project m)) in
  (existsb hasDwfFlowRecord nodes = true ->
     exists m', addDryWeatherInflows X currentDate m = Throw (ReferenceError "inObj") m') /\
  (existsb hasDwfFlowRecord nodes = false ->
     exists m', addDryWeatherInflows X currentDate m = Ok tt m' /\
       dwfNothingDelivered m m').
Proof.
  intros Hlen nodes. unfold addDryWeatherInflows, bind, gets.
  pose proof (addDryWeatherInflows_loop (Nobjects_NODE (setup m)) 0 m Hlen) as H.
  rewrite drop_0 in H. fold nodes in H.
  destruct (existsb hasDwfFlowRecord nodes); split; intros; try discriminate; exact H.
Qed.
End DryWeather.

Lemma addDryWeatherInflows_outcome_witness :
  exists m', addDryWeatherInflows quiet 0 dwfFlowSim = Throw (ReferenceError "inObj") m'.
Proof.
  apply (addDryWeatherInflows_outcome quiet 0 dwfFlowSim ltac:(vm_compute; lia)).
  vm_compute. reflexivity.
Defined.

(** C9 as stated fails: the chain of the only node is not empty (it
    holds the record of pollutant 0), and addDryWeatherInflows returns
    normally, having added and reported a flow of zero. *)
Lemma dwf_pollutant_record_alone_completes :
  exists m', addDryWeatherInflows quiet 0 dwfSim = Ok tt m' /\
    dwfInflow <$> Node (project dwfSim) = [[mkDwfInflow 0 5]] /\
    trace m' = [massbal_addInflowFlow DRY_WEATHER_INFLOW 0] /\
    newQual <$> Node (project m') = [[0%float]].
Proof.
  eexists. split; [vm_compute; reflexivity|]. vm_compute. repeat split.
Qed.

(* ================================================================== *)
(** ** Conservation of the aggregation                                 *)
(* ================================================================== *)










Section Conservation.
Variable X : Collab.


End Conservation.

(** The aggregation of [steadySim]: the inflow of 2 is added to node 0
    and reported once. *)
Example aggregation_of_steadySim :
  let m' := final (addInflows quiet 0 60 steadySim) in
  latAdds m' = [(0, 2%float)] /\
  inflowFlows (trace m') = [2%float] /\
  newLatFlow <$> Node (project m') = [2%float].
Proof. vm_compute. repeat split. Qed.

(* ================================================================== *)
(** ** The routing scheduler                                           *)
(* ================================================================== *)

(** From [H : (c ;; k) m = Ok b m'] to [H : k a m1 = Ok b m'], where
    [c] does not assign [f]. *)
Ltac step_ok f H :=
  apply (bind_Ok_keeps (unchanged f)) in H;
  [ let a := fresh "a" in let m1 := fresh "m" in let U := fresh "U" in
    destruct H as (a & m1 & _ & U & H); unfold unchanged in U
  | solve [frame f] ].

Lemma noFlowrout_refl m : noFlowrout m m.
Proof. exists []. by rewrite app_nil_r. Qed.

Lemma noFlowrout_trans a b c : noFlowrout a b -> noFlowrout b c -> noFlowrout a c.
Proof.
  intros (t1 & T1 & F1) (t2 & T2 & F2). exists (t1 ++ t2).
  rewrite T2, T1, app_assoc, existsb_app, F1, F2. done.
Qed.

Lemma noFlowrout_same m m' : trace m' = trace m -> noFlowrout m m'.
Proof. intros H. exists []. by rewrite H, app_nil_r. Qed.

Lemma noFlowrout_log c : isFlowroutExecute c = false -> keeps noFlowrout (log c).
Proof. intros Hc m. exists [c]. simpl. by rewrite Hc. Qed.

Lemma noFlowrout_call X c : isFlowroutExecute c = false -> keeps noFlowrout (call X c).
Proof. intros Hc m. exists [c]. simpl. by rewrite Hc. Qed.

(** [keeps noFlowrout c] for a [c] without a call of the solver. *)
Ltac quiet_trace X :=
  repeat first
    [ assumption
    | apply noFlowrout_log; reflexivity
    | apply (noFlowrout_call X); reflexivity
    | apply keeps_modify; intros ?; apply noFlowrout_same; reflexivity
    | keeps_step noFlowrout_refl noFlowrout_trans
    | unfold_routing ].

Section Scheduler.
Variable X : Collab.

(* ------------------------------------------------------------------ *)
(** *** The error latch                                                *)
(* ------------------------------------------------------------------ *)

(** C7, as amended.  Once the error latch is set, routing_execute
    returns at once: the state, the clock and the calls made are what
    they were. *)
Theorem routing_execute_latched (routingModel : Z) (routingStep : float) (m : Sim) :
  ErrorCode (project m) <> 0%Z ->
  routing_execute X routingModel routingStep m = Ok (mkLocals 1 0 false) m.
Proof.
  intros H. unfold routing_execute, bind, gets.
  destruct (ErrorCode (project m) =? 0)%Z eqn:E; [|reflexivity].
  apply Z.eqb_eq in E. contradiction.
Qed.

(* ------------------------------------------------------------------ *)
(** *** The index of the next event                                    *)
(* ------------------------------------------------------------------ *)







End Scheduler.

Lemma routing_execute_latched_witness :
  routing_execute quiet 0 60 latchedSim = Ok (mkLocals 1 0 false) latchedSim.
Proof. apply (routing_execute_latched quiet 0 60 latchedSim). vm_compute. discriminate. Defined.

(** C7 as stated fails for the other entry points: with the latch set,
    routing_close still closes files and frees the solver, routing_open
    still opens the treatment system, sorts the links and assigns
    [SortedLinks], and routing_getRoutingStep still asks the solver for
    a step. *)
Lemma latch_not_checked_by_close_and_open :
  ErrorCode (project latchedSim) = 1%Z /\ trace latchedSim = [] /\
  SortedLinks latchedSim = None /\
  (exists m', routing_close quiet 0 latchedSim = Ok tt m' /\
     trace m' = [iface_closeRoutingFiles; flowrout_close 0; treatmnt_close; FREE]) /\
  (exists m', routing_open quiet latchedSim = Ok 1%Z m' /\
     trace m' = [treatmnt_open; toposort_sortLinks] /\
     SortedLinks m' = Some [0%Z]) /\
  routing_getRoutingStep quiet 0 60 latchedSim = Ok 60%float latchedSim.
Proof.
  split; [vm_compute; reflexivity|]. split; [vm_compute; reflexivity|].
  split; [vm_compute; reflexivity|]. split; [|split].
  - eexists. split; vm_compute; reflexivity.
  - eexists. split; [vm_compute; reflexivity|]. split; vm_compute; reflexivity.
  - vm_compute. reflexivity.
Qed.



(* ------------------------------------------------------------------ *)
(** *** Skipping steady periods                                        *)
(* ------------------------------------------------------------------ *)

Section Steady.
Variable X : Collab.

Lemma beginStep_noFlowrout step : keeps noFlowrout (beginStep X step).
Proof. quiet_trace X. Qed.

Lemma addInflows_noFlowrout d step : keeps noFlowrout (addInflows X d step).
Proof. quiet_trace X. Qed.

Lemma beginStep_setup step : keeps (unchanged setup) (beginStep X step).
Proof. frame setup. Qed.

Lemma addInflows_setup d step : keeps (unchanged setup) (addInflows X d step).
Proof. frame setup. Qed.

Lemma addInflows_OldRoutingTime d step :
  keeps (unchanged OldRoutingTime) (addInflows X d step).
Proof. frame OldRoutingTime. Qed.

(** After beginStep, [OldRoutingTime] is the elapsed time before the
    step. *)
Lemma beginStep_clock step m r m1 :
  beginStep X step m = Ok r m1 -> OldRoutingTime m1 = NewRoutingTime m.
Proof.
  intros H. unfold beginStep in H.
  do 7 step_ok NewRoutingTime H.
  unfold bind at 1, modify at 1 in H. unfold bind at 1, modify at 1 in H.
  repeat step_ok OldRoutingTime H.
  unfold ret in H. injection H as _ <-. simpl in *. congruence.
Qed.

Lemma steadyStateTest_run ac err m :
  SkipSteadyState (setup m) = true ->
  steadyStateTest ac err m =
    if (OldRoutingTime m =? 0)%float || (0 <? ac)%nat
       || gtb (abs err) (SysFlowTol (setup m))
    then Ok false m
    else match inflowHasChanged m with
         | Ok b _ => Ok (negb b) m
         | Throw e _ => Throw e m
         end.
Proof.
  intros Hs. unfold steadyStateTest, bind at 1, get. rewrite Hs.
  destruct (_ || _ || _); [reflexivity|].
  unfold bind. pose proof (inflowHasChanged_pure m) as P.
  destruct (inflowHasChanged m) as [b m1|e m1]; simpl in P; subst m1; [|reflexivity].
  by destruct b.
Qed.

(** C2.  With the skipping of steady periods enabled, take a step that
    is not between events: beginStep yields the number [ac] of link
    settings changed and the flow error [err] sampled from the previous
    step, and the aggregation of inflows leads to [m2].  When
    routing_execute returns, it has treated the step as steady state
    exactly when the elapsed routing time before the step was not
    zero, no setting was changed, [|err|] is not above [SysFlowTol] and
    inflowHasChanged returns false; and in that case the whole step
    made no call of flowrout_execute. *)
Theorem steady_state_decision (routingModel : Z) (routingStep : float)
    (m : Sim) (d : DateTime) (ac : nat) (err : float) (m1 m2 : Sim)
    (loc : Locals) (m' : Sim) :
  ErrorCode (project m) = 0%Z ->
  SkipSteadyState (setup m) = true ->
  beginStep X routingStep m = Ok (d, ac, err) m1 ->
  BetweenEvents m1 = false ->
  addInflows X d routingStep m1 = Ok tt m2 ->
  routing_execute X routingModel routingStep m = Ok loc m' ->
  (inSteadyState loc = true <->
     (NewRoutingTime m =? 0)%float = false /\ ac = 0 /\
     gtb (abs err) (SysFlowTol (setup m)) = false /\
     inflowHasChanged m2 = Ok false m2) /\
  (inSteadyState loc = true -> noFlowrout m m').
Proof.
  intros Herr Hskip Hb Hbe Ha H.
  pose proof (beginStep_clock _ _ _ _ Hb) as Hclock.
  pose proof (beginStep_setup routingStep m) as S1. rewrite Hb in S1.
  pose proof (addInflows_setup d routingStep m1) as S2. rewrite Ha in S2.
  pose proof (addInflows_OldRoutingTime d routingStep m1) as O2. rewrite Ha in O2.
  pose proof (beginStep_noFlowrout routingStep m) as T1. rewrite Hb in T1.
  pose proof (addInflows_noFlowrout d routingStep m1) as T2. rewrite Ha in T2.
  unfold unchanged in *. simpl in S1, S2, O2, T1, T2.
  assert (Hs2 : setup m2 = setup m) by congruence.
  assert (Ho2 : OldRoutingTime m2 = NewRoutingTime m) by congruence.
  unfold routing_execute in H.
  unfold bind at 1, gets at 1 in H. rewrite Herr in H. simpl in H.
  unfold bind at 1, gets at 1 in H. unfold bind at 1 in H. rewrite Hb in H.
  unfold bind at 1, gets at 1 in H. rewrite Hbe in H. simpl in H.
  apply bind_Ok_inv in H as (loc1 & m3 & H & Hfin).
  unfold bind at 1 in H. rewrite Ha in H.
  unfold bind at 1 in H. rewrite steadyStateTest_run in H by congruence.
  rewrite Hs2, Ho2 in H.
  assert (Hloc : loc = loc1 /\ noFlowrout m3 m').
  { split.
    - clear -Hfin. repeat (apply bind_Ok_inv in Hfin as (? & ? & _ & Hfin)).
      unfold ret in Hfin. congruence.
    - match type of Hfin with ?c m3 = _ =>
        assert (K : keeps noFlowrout c) by (quiet_trace X) end.
      specialize (K m3). by rewrite Hfin in K. }
  destruct Hloc as [-> Hn3]. clear Hfin.
  assert (Htail : forall a,
    (stepCount <- findHydraulicState X routingModel routingStep a;;
         (if (0 <? Nobjects_POLLUT (setup m))%nat && negb (IgnoreQuality (setup m))
          then call X (qualrout_execute routingStep)
          else ret ());;
         removeStorageLosses routingStep;;
         removeConduitLosses;;
         removeOutflows X routingStep;;
         ret {| stepCount := stepCount; actionCount := ac; inSteadyState := a |}) m2
      = Ok loc1 m3 ->
    inSteadyState loc1 = a /\ (a = true -> noFlowrout m2 m3)).
  { intros a E. split.
    - clear -E. repeat (apply bind_Ok_inv in E as (? & ? & _ & E)).
      unfold ret in E. injection E as <- _. reflexivity.
    - intros ->.
      match type of E with ?c m2 = _ =>
        assert (K : keeps noFlowrout c)
          by (unfold findHydraulicState; simpl negb; quiet_trace X) end.
      specialize (K m2). by rewrite E in K. }
  destruct ((NewRoutingTime m =? 0)%float || (0 <? ac)%nat
            || gtb (abs err) (SysFlowTol (setup m))) eqn:Hc.
  - destruct (Htail _ H) as [Hin _]. rewrite Hin. split; [|discriminate].
    split; [discriminate|]. intros (C1 & -> & C3 & _).
    rewrite C1, C3 in Hc. discriminate.
  - apply orb_false_iff in Hc as [Hc C3]. apply orb_false_iff in Hc as [C1 C2].
    apply Nat.ltb_ge in C2.
    pose proof (inflowHasChanged_pure m2) as P.
    destruct (inflowHasChanged m2) as [b mx|e mx]; simpl in P; [subst mx|discriminate].
    destruct (Htail _ H) as [Hin Hno]. rewrite Hin. split.
    + split.
      * intros Hb'. repeat split; try done; [lia|]. destruct b; [discriminate|done].
      * intros (_ & _ & _ & E). injection E as ->. reflexivity.
    + intros Hb'. specialize (Hno Hb').
      eauto using noFlowrout_trans.
Qed.
End Steady.

(** The first step of [steadySim] is not steady (the elapsed time is
    zero) and calls the solver. *)
Example first_step_not_steady :
  exists loc m', routing_execute quiet 0 60 steadySim = Ok loc m' /\
    inSteadyState loc = false /\
    existsb isFlowroutExecute (trace m') = true.
Proof. eexists _, _. split; [vm_compute; reflexivity|]. split; vm_compute; reflexivity. Qed.

(** The second step of [steadySim], with the inflow of 2 unchanged, is
    steady, and the solver is not invoked. *)
Lemma steady_state_decision_witness :
  exists loc m', routing_execute quiet 0 60 steadySim1 = Ok loc m' /\
    inSteadyState loc = true /\ noFlowrout steadySim1 m'.
Proof.
  pose (run := routing_execute quiet 0 60 steadySim1).
  pose (loc := match run with Ok l _ => l | Throw _ _ => mkLocals 0 0 false end).
  pose (d := getDateTime quiet (NewRoutingTime steadySim1)).
  exists loc, (final run).
  assert (E : routing_execute quiet 0 60 steadySim1 = Ok loc (final run))
    by (vm_compute; reflexivity).
  split; [exact E|].
  destruct (steady_state_decision quiet 0 60 steadySim1 d 0 0 steadyBegin steadyInflows
              loc (final run)) as [Hiff Hno];
    try (vm_compute; reflexivity).
  assert (S : inSteadyState loc = true).
  { apply Hiff. split; [vm_compute; reflexivity|]. split; [reflexivity|].
    split; vm_compute; reflexivity. }
  split; [exact S|exact (Hno S)].
Defined.

(* ------------------------------------------------------------------ *)
(** *** The step between events                                        *)
(* ------------------------------------------------------------------ *)

Section StepBetweenEvents.
Variable X : Collab.


End StepBetweenEvents.


